(** * MixerGL: picking, gizmo hit tests and the drag state machine

    A shallow embedding of [App/Source/App.cpp].

    - Numbers.  The C++ [float] is IEEE binary32.  It is modelled with the
      Standard Library's executable specification of floating point
      ([SpecFloat], precision 24, emax 128): every operation rounds to
      nearest-even as a single precision operation does (no fused
      multiply-add, no wider intermediate), and infinities, signed zeros and
      NaN behave as in the program.
    - GLM.  The vector functions the source calls ([dot], [cross], [length],
      [normalize], [max], [clamp], [radians], [angleAxis], quaternion times
      vector) are written out in [Module glm] from GLM's scalar definitions.
      [cosf] and [sinf] are parameters.
    - State.  The globals of the source are the fields of [State]; the mouse
      button callback, the drag block of the render loop and the panels are
      state transformers.  Those that index [objects] return [option]; [None]
      stands for an access outside the vector or a read of the uninitialised
      [axisDirection] (undefined behaviour in C++).
    - Environment.  What the code obtains from GLFW, ImGui and the camera is
      passed in: the button and action, [WantCaptureMouse], and the ray
      ([camera.Position] and the result of [ScreenToWorldRay]).
    - Left out: the log ([Log], [debugMessages]) and all rendering; nothing
      the editor state depends on reads them. *)

From Stdlib Require Import ZArith Bool Lia.
From Stdlib Require Import Floats.SpecFloat.
From stdpp Require Import base option list.

Set Default Proof Using "Type".
Local Open Scope Z_scope.

(** ** binary32 arithmetic *)

Definition float : Type := spec_float.

Definition prec32 : Z := 24.
Definition emax32 : Z := 128.

Definition fadd : float -> float -> float := SFadd prec32 emax32.
Definition fsub : float -> float -> float := SFsub prec32 emax32.
Definition fmul : float -> float -> float := SFmul prec32 emax32.
Definition fdiv : float -> float -> float := SFdiv prec32 emax32.
Definition fsqrt : float -> float := SFsqrt prec32 emax32.
Definition fabs : float -> float := SFabs.
Definition fltb : float -> float -> bool := SFltb.
Definition feqb : float -> float -> bool := SFeqb.

Declare Scope f32_scope.
Delimit Scope f32_scope with f32.
Bind Scope f32_scope with float.
Infix "+" := fadd : f32_scope.
Infix "-" := fsub : f32_scope.
Infix "*" := fmul : f32_scope.
Infix "/" := fdiv : f32_scope.
Infix "<?" := fltb : f32_scope.
Infix "==?" := feqb (at level 70) : f32_scope.

(** The value of the decimal literal [n/d] written with an [f] suffix: the
    quotient of two exact integers, rounded once to binary32. *)
Definition lit (n d : positive) : float :=
  fdiv (S754_finite false n 0) (S754_finite false d 0).

Definition f0 : float := S754_zero false.
Definition f1 : float := lit 1 1.
Definition f2 : float := lit 2 1.
Definition f4 : float := lit 4 1.
Definition f5 : float := lit 5 1.
Definition f0_5 : float := lit 1 2.
Definition f0_1 : float := lit 1 10.
Definition f0_2 : float := lit 2 10.

Definition is_nan (a : float) : bool :=
  match a with S754_nan => true | _ => false end.

(** An ordinary number: neither an infinity nor NaN. *)
Definition is_finite (a : float) : bool :=
  match a with S754_zero _ | S754_finite _ _ _ => true | _ => false end.

Definition is_zero (a : float) : bool :=
  match a with S754_zero _ => true | _ => false end.

(** ** The GLM functions used by the source *)

Module glm.

Record vec3 : Type := Vec3 { x : float; y : float; z : float }.
Record vec4 : Type := Vec4 { r : float; g : float; b : float; a : float }.
(** [glm::quat], real part [w] and vector part [qx qy qz]. *)
Record quat : Type := Quat { w : float; qx : float; qy : float; qz : float }.

Local Open Scope f32_scope.

(** [glm::vec3(s)] *)
Definition splat (s : float) : vec3 := Vec3 s s s.

Definition add (u v : vec3) : vec3 := Vec3 (x u + x v) (y u + y v) (z u + z v).
Definition sub (u v : vec3) : vec3 := Vec3 (x u - x v) (y u - y v) (z u - z v).
(** [s * v] and [v * s] *)
Definition scale_l (s : float) (v : vec3) : vec3 := Vec3 (s * x v) (s * y v) (s * z v).
Definition scale_r (v : vec3) (s : float) : vec3 := Vec3 (x v * s) (y v * s) (z v * s).

Definition dot (u v : vec3) : float := x u * x v + y u * y v + z u * z v.

Definition cross (u v : vec3) : vec3 :=
  Vec3 (y u * z v - y v * z u)
       (z u * x v - z v * x u)
       (x u * y v - x v * y u).

Definition length (v : vec3) : float := fsqrt (dot v v).

Definition inversesqrt (s : float) : float := f1 / fsqrt s.

Definition normalize (v : vec3) : vec3 := scale_r v (inversesqrt (dot v v)).

(** scalar [glm::max], [glm::min] and [glm::clamp] *)
Definition fmax (s t : float) : float := if s <? t then t else s.
Definition fmin (s t : float) : float := if t <? s then t else s.
Definition clamp (s lo hi : float) : float := fmin (fmax s lo) hi.

(** componentwise [glm::max] *)
Definition max (u v : vec3) : vec3 :=
  Vec3 (fmax (x u) (x v)) (fmax (y u) (y v)) (fmax (z u) (z v)).

(** [glm::radians]: degrees times pi/180 rounded to binary32. *)
Definition deg2rad : float :=
  lit 1745329251994329576923690768489 100000000000000000000000000000000.
Definition radians (deg : float) : float := deg * deg2rad.

Section Trig.
(** The C library's single precision cosine and sine. *)
Variables cosf sinf : float -> float.

Definition angleAxis (angle : float) (v : vec3) : quat :=
    let s := sinf (angle * f0_5) in
    let v' := scale_r v s in
    Quat (cosf (angle * f0_5)) (x v') (y v') (z v').
End Trig.

(** [quat * vec3] *)
Definition rotate (q : quat) (v : vec3) : vec3 :=
  let QuatVector := Vec3 (qx q) (qy q) (qz q) in
  let uv := cross QuatVector v in
  let uuv := cross QuatVector uv in
  add v (scale_r (add (scale_r uv (w q)) uuv) f2).

End glm.

Abbreviation vec3 := glm.vec3.
Abbreviation Vec3 := glm.Vec3.
Abbreviation vec4 := glm.vec4.
Abbreviation Vec4 := glm.Vec4.

(** ** The scene and the editor globals *)

(** [struct Object] *)
Record Object : Type := mkObject {
  position : vec3;
  scale : vec3;
  color : vec4;
  isCube : bool;
  textureID : Z
}.

Definition set_position (p : vec3) (o : Object) : Object :=
  mkObject p (scale o) (color o) (isCube o) (textureID o).
Definition set_scale (v : vec3) (o : Object) : Object :=
  mkObject (position o) v (color o) (isCube o) (textureID o).
Definition set_textureID (t : Z) (o : Object) : Object :=
  mkObject (position o) (scale o) (color o) (isCube o) t.

Inductive TransformationMode : Type := TRANSLATE | ROTATE | SCALE.

(** The globals of the source that the editor logic reads and writes. *)
Record State : Type := mkState {
  objects : list Object;
  selectedObject : Z;          (* -1: nothing selected *)
  selectedAxis : Z;            (* -1: no axis, 0 = X, 1 = Y, 2 = Z *)
  isDragging : bool;
  initialClickPosition : vec3;
  currentMode : TransformationMode;
  movementSensitivity : float
}.

Definition set_objects (l : list Object) (s : State) : State :=
  mkState l (selectedObject s) (selectedAxis s) (isDragging s)
          (initialClickPosition s) (currentMode s) (movementSensitivity s).
Definition set_selectedObject (i : Z) (s : State) : State :=
  mkState (objects s) i (selectedAxis s) (isDragging s)
          (initialClickPosition s) (currentMode s) (movementSensitivity s).
Definition set_selectedAxis (ax : Z) (s : State) : State :=
  mkState (objects s) (selectedObject s) ax (isDragging s)
          (initialClickPosition s) (currentMode s) (movementSensitivity s).
Definition set_isDragging (d : bool) (s : State) : State :=
  mkState (objects s) (selectedObject s) (selectedAxis s) d
          (initialClickPosition s) (currentMode s) (movementSensitivity s).
Definition set_initialClickPosition (p : vec3) (s : State) : State :=
  mkState (objects s) (selectedObject s) (selectedAxis s) (isDragging s)
          p (currentMode s) (movementSensitivity s).
Definition set_currentMode (m : TransformationMode) (s : State) : State :=
  mkState (objects s) (selectedObject s) (selectedAxis s) (isDragging s)
          (initialClickPosition s) m (movementSensitivity s).

(** [static_cast<int>(i)] of a [size_t]: reduction to 32 bits, two's
    complement. *)
Definition static_cast_int (i : Z) : Z :=
  let m := i mod 4294967296 in
  if m <? 2147483648 then m else m - 4294967296.

Definition INT_MAX : Z := 2147483647.

(** [objects[i]] for an [int] index. *)
Definition object_at (l : list Object) (i : Z) : option Object :=
  if i <? 0 then None else l !! Z.to_nat i.

Definition unit_x : vec3 := Vec3 f1 f0 f0.
Definition unit_y : vec3 := Vec3 f0 f1 f0.
Definition unit_z : vec3 := Vec3 f0 f0 f1.

(** The state when the render loop is entered: the globals' initialisers,
    and the default cube [main] adds at [camera.Position + (0, 0.5, -3)],
    the camera being constructed at (0, 0, 3). *)
Definition camera_Position0 : vec3 := Vec3 f0 f0 (lit 3 1).
Definition startPosition : vec3 :=
  glm.add camera_Position0 (Vec3 f0 f0_5 (SFopp (lit 3 1))).
Definition white : vec4 := Vec4 f1 f1 f1 f1.

Definition initial_state : State :=
  mkState [mkObject startPosition (glm.splat f1) white true 0]
          (-1) (-1) false (Vec3 f0 f0 f0) TRANSLATE f4.

(** ** Geometry *)

Section Geometry.
Local Open Scope f32_scope.

(** The discriminant [b*b - 4ac] computed by [RayIntersectsObject]. *)
Definition discriminant (ray_origin ray_direction : vec3) (object : Object) : float :=
  let radius := f0_5 * glm.length (scale object) in
  let oc := glm.sub ray_origin (position object) in
  let a := glm.dot ray_direction ray_direction in
  let b := f2 * glm.dot oc ray_direction in
  let c := glm.dot oc oc - radius * radius in
  b * b - f4 * a * c.

Definition RayIntersectsObject (ray_origin ray_direction : vec3) (object : Object) : bool :=
  if f0 <? discriminant ray_origin ray_direction object then true else false.

Definition DistanceFromRayToLineSegment
    (ray_origin ray_direction line_start line_end : vec3) : float :=
  let line_dir := glm.sub line_end line_start in
  let line_length := glm.length line_dir in
  let line_dir := glm.normalize line_dir in
  let v := glm.sub ray_origin line_start in
  let projection := glm.add line_start (glm.scale_l (glm.dot v line_dir) line_dir) in
  let t := glm.dot (glm.sub projection line_start) line_dir / line_length in
  let t := glm.clamp t f0 f1 in
  let closest_point :=
    glm.add line_start (glm.scale_r (glm.scale_l t line_dir) line_length) in
  let perpendicular_dist :=
    glm.cross ray_direction (glm.sub closest_point ray_origin) in
  glm.length perpendicular_dist / glm.length ray_direction.

(** The parameter of the ray/plane intersection in [IsRayNearCircle]. *)
Definition plane_parameter (ray_origin ray_direction center normal : vec3) : float :=
  glm.dot (glm.sub center ray_origin) normal / glm.dot ray_direction normal.

Definition IsRayNearCircle
    (ray_origin ray_direction center normal : vec3) (radius : float) : bool :=
  let t := plane_parameter ray_origin ray_direction center normal in
  if t <? f0 then false
  else
    let intersection := glm.add ray_origin (glm.scale_l t ray_direction) in
    let distanceToCenter := glm.length (glm.sub intersection center) in
    let threshold := f0_1 in
    fabs (distanceToCenter - radius) <? threshold.

End Geometry.

(** ** The mouse button callback *)

Definition GLFW_MOUSE_BUTTON_LEFT : Z := 0.
Definition GLFW_RELEASE : Z := 0.
Definition GLFW_PRESS : Z := 1.

Definition gizmoClickRadius : float := f0_2.

(** One arrow test of the press branch: is the ray within the click radius of
    the segment from the object's position to that position plus [axis]? *)
Definition near_arrow (ray_origin ray_direction obj_position axis : vec3) : bool :=
  fltb (DistanceFromRayToLineSegment ray_origin ray_direction
          obj_position (glm.add obj_position axis)) gizmoClickRadius.

(** The gizmo block of the press branch: the three arrow tests on
    [objects[selectedObject]], then the capture of the click position when
    [isDragging] is set. *)
Definition gizmo_click (ray_origin ray_direction : vec3) (s : State) : option State :=
  obj ← object_at (objects s) (selectedObject s);
  let s :=
    if near_arrow ray_origin ray_direction (position obj) unit_x
    then set_isDragging true (set_selectedAxis 0 s)
    else if near_arrow ray_origin ray_direction (position obj) unit_y
    then set_isDragging true (set_selectedAxis 1 s)
    else if near_arrow ray_origin ray_direction (position obj) unit_z
    then set_isDragging true (set_selectedAxis 2 s)
    else s in
  Some (if isDragging s
        then set_initialClickPosition (glm.add ray_origin ray_direction) s
        else s).

(** The picking loop [for (size_t i = 0; i < objects.size(); ++i)]: [rest]
    is the part of [objects] from index [i] on, [sel] the current value of
    [selectedObject]. *)
Fixpoint pick_loop (ray_origin ray_direction : vec3)
    (rest : list Object) (i : Z) (sel : Z) : Z :=
  match rest with
  | [] => sel
  | o :: rest' =>
      if RayIntersectsObject ray_origin ray_direction o
      then static_cast_int i
      else pick_loop ray_origin ray_direction rest' (i + 1) sel
  end.

Definition pick_object (ray_origin ray_direction : vec3) (s : State) : State :=
  set_selectedObject
    (pick_loop ray_origin ray_direction (objects s) 0 (-1)) s.

(** [mouse_button_callback].  What the callback reads from its environment
    is passed in: [WantCaptureMouse] is [ImGui::GetIO().WantCaptureMouse],
    and [ray_origin], [ray_direction] are the camera position and the result
    of [ScreenToWorldRay] at the cursor. *)
Definition mouse_button_callback (button action : Z) (WantCaptureMouse : bool)
    (ray_origin ray_direction : vec3) (s : State) : option State :=
  if (button =? GLFW_MOUSE_BUTTON_LEFT) && (action =? GLFW_PRESS) then
    if WantCaptureMouse then Some s
    else
      let s := set_selectedAxis (-1) s in
      s ← (if 0 <=? selectedObject s
           then gizmo_click ray_origin ray_direction s
           else Some s);
      if (selectedObject s =? -1) || negb (isDragging s)
      then Some (pick_object ray_origin ray_direction s)
      else Some s
  else if (button =? GLFW_MOUSE_BUTTON_LEFT) && (action =? GLFW_RELEASE) then
    Some (set_selectedAxis (-1) (set_isDragging false s))
  else Some s.

(** [HandleGizmoInteraction]: the mode-aware gizmo test.  It is defined in
    the source but nothing calls it. *)
Definition HandleGizmoInteraction (ray_origin ray_direction : vec3) (s : State)
    : option State :=
  if selectedObject s <? 0 then Some s
  else
    match currentMode s with
    | TRANSLATE => Some s
    | ROTATE =>
        obj ← object_at (objects s) (selectedObject s);
        let near_ring normal :=
          IsRayNearCircle ray_origin ray_direction (position obj) normal f1 in
        Some (if near_ring unit_x then set_isDragging true (set_selectedAxis 0 s)
              else if near_ring unit_y then set_isDragging true (set_selectedAxis 1 s)
              else if near_ring unit_z then set_isDragging true (set_selectedAxis 2 s)
              else s)
    | SCALE => Some s
    end.

(** ** The drag block of the render loop *)

(** [axisDirection]: it is assigned only for axes 0, 1 and 2 and read
    uninitialised otherwise. *)
Definition axis_direction (ax : Z) : option vec3 :=
  if ax =? 0 then Some unit_x
  else if ax =? 1 then Some unit_y
  else if ax =? 2 then Some unit_z
  else None.

(** [movement] of the drag block. *)
Definition drag_movement (currentRayPosition axisDirection : vec3) (s : State) : vec3 :=
  glm.scale_r
    (glm.scale_l
       (glm.dot (glm.sub currentRayPosition (initialClickPosition s)) axisDirection)
       axisDirection)
    (movementSensitivity s).

Section Editor.
(** The C library's [cosf] and [sinf], which [glm::angleAxis] calls. *)
Variables cosf sinf : float -> float.

(** [rotation] of the [ROTATE] case. *)
Definition drag_rotation (movement axisDirection : vec3) (s : State) : glm.quat :=
  let angle := fmul (fmul (glm.length movement) f5) (movementSensitivity s) in
  let rotationAxis := glm.normalize axisDirection in
  glm.angleAxis cosf sinf (glm.radians angle) rotationAxis.

(** The [switch (currentMode)] applied to [objects[selectedObject]]. *)
Definition apply_transformation (movement axisDirection : vec3) (s : State)
    (obj : Object) : Object :=
  match currentMode s with
  | TRANSLATE => set_position (glm.add (position obj) movement) obj
  | ROTATE =>
      let rotation := drag_rotation movement axisDirection s in
      let objectCenter := position obj in
      let newPosition :=
        glm.add (glm.rotate rotation (glm.sub (position obj) objectCenter))
                objectCenter in
      set_position newPosition obj
  | SCALE =>
      set_scale (glm.max (glm.add (scale obj) movement) (glm.splat f0_1)) obj
  end.

(** "Handle dragging and transformations" in [main]'s loop; the ray is the
    one recomputed from the live cursor position. *)
Definition main_drag (ray_origin ray_direction : vec3) (s : State) : option State :=
  if isDragging s && (0 <=? selectedObject s) && (0 <=? selectedAxis s) then
    let currentRayPosition := glm.add ray_origin ray_direction in
    axisDirection ← axis_direction (selectedAxis s);
    let movement := drag_movement currentRayPosition axisDirection s in
    obj ← object_at (objects s) (selectedObject s);
    Some (set_initialClickPosition currentRayPosition
            (set_objects
               (<[Z.to_nat (selectedObject s) :=
                    apply_transformation movement axisDirection s obj]>
                  (objects s))
               s))
  else Some s.

(** ** The panels *)

(** The widgets of [RenderImGui] that change editor state when activated. *)
Inductive Widget : Type :=
  | ButtonMove | ButtonRotate | ButtonScale
  | ButtonAddCube | ButtonAddSphere
  | Selectable (i : nat).

Definition default_object (cube : bool) : Object :=
  mkObject (Vec3 f0 f0_5 f0) (glm.splat f1) white cube 0.

(** [RenderImGui] in a frame where widget [w] is activated.  A
    [Selectable] exists only for an index below [objects.size()]. *)
Definition RenderImGui (w : Widget) (s : State) : State :=
  match w with
  | ButtonMove => set_currentMode TRANSLATE s
  | ButtonRotate => set_currentMode ROTATE s
  | ButtonScale => set_currentMode SCALE s
  | ButtonAddCube => set_objects (objects s ++ [default_object true]) s
  | ButtonAddSphere => set_objects (objects s ++ [default_object false]) s
  | Selectable i =>
      if (i <? length (objects s))%nat
      then set_selectedObject (static_cast_int (Z.of_nat i)) s
      else s
  end.

(** The edits [RenderObjectSettings] can make to the selected object. *)
Inductive SettingsEdit : Type :=
  | DragPosition (v : vec3)
  | DragScale (v : vec3)
  | LoadTextureButton (id : Z).

Definition RenderObjectSettings (e : SettingsEdit) (s : State) : State :=
  if (selectedObject s <? 0) || (Z.of_nat (length (objects s)) <=? selectedObject s)
  then s
  else
    let i := Z.to_nat (selectedObject s) in
    match objects s !! i with
    | None => s
    | Some obj =>
        let obj' :=
          match e with
          | DragPosition v => set_position v obj
          | DragScale v => set_scale v obj
          | LoadTextureButton id => set_textureID id obj
          end in
        set_objects (<[i := obj']> (objects s)) s
    end.

(** ** Input operations and runs *)

Inductive Event : Type :=
  | MouseButton (button action : Z) (WantCaptureMouse : bool)
                (ray_origin ray_direction : vec3)
  | Frame (ray_origin ray_direction : vec3)
  | Panel (w : Widget)
  | Settings (e : SettingsEdit).

Definition step (s : State) (ev : Event) : option State :=
  match ev with
  | MouseButton button action want ro rd =>
      mouse_button_callback button action want ro rd s
  | Frame ro rd => main_drag ro rd s
  | Panel w => Some (RenderImGui w s)
  | Settings e => Some (RenderObjectSettings e s)
  end.

Fixpoint run (s : State) (tr : list Event) : option State :=
  match tr with
  | [] => Some s
  | ev :: tr' => s' ← step s ev; run s' tr'
  end.

End Editor.

Definition fleb : float -> float -> bool := SFleb.

(** Zero of either sign, or NaN: what arithmetic on a zero vector yields. *)
Definition zero_or_nan (a : float) : bool := is_zero a || is_nan a.

Definition zero_vec (v : vec3) : bool :=
  is_zero (glm.x v) && is_zero (glm.y v) && is_zero (glm.z v).

Definition finite_vec (v : vec3) : bool :=
  is_finite (glm.x v) && is_finite (glm.y v) && is_finite (glm.z v).

Definition finite_quat (q : glm.quat) : bool :=
  is_finite (glm.w q) && is_finite (glm.qx q) && is_finite (glm.qy q)
  && is_finite (glm.qz q).

(** Componentwise comparison with the C++ [==] on floats. *)
Definition vec_eqb (u v : vec3) : bool :=
  feqb (glm.x u) (glm.x v) && feqb (glm.y u) (glm.y v) && feqb (glm.z u) (glm.z v).

Definition negative_zero : float := S754_zero true.

(** ** Vocabulary of the statements, and the scenes they are run on *)

(** The object of Scenario A: at the origin, of scale (1, 1, 1). *)
Definition scenarioA_object : Object :=
  mkObject (Vec3 f0 f0 f0) (glm.splat f1) white true 0.

(** An object of scale (2, 1, 2): the bounding sphere has radius 1.5. *)
Definition tangent_object : Object :=
  mkObject (Vec3 f0 f0 f0) (Vec3 f2 f1 f2) white true 0.
Definition tangent_origin : vec3 := Vec3 (lit 3 2) f0 f5.
Definition towards_minus_z : vec3 := Vec3 f0 f0 (SFopp f1).

(** 2^70, far enough for the squares in the discriminant to overflow. *)
Definition far_away : float := S754_finite false 8388608 47.

Definition zero_direction : vec3 := Vec3 f0 f0 f0.

(** The axis whose arrow the press selects: the three unit segments from the
    object's position, tried in the order X, Y, Z; -1 when none is near. *)
Definition first_arrow (ray_origin ray_direction obj_position : vec3) : Z :=
  if near_arrow ray_origin ray_direction obj_position unit_x then 0
  else if near_arrow ray_origin ray_direction obj_position unit_y then 1
  else if near_arrow ray_origin ray_direction obj_position unit_z then 2
  else -1.




(** The unit object at (0, 0.5, 0), where the panel buttons create objects
    and where the default cube starts. *)
Definition unit_object : Object :=
  mkObject (Vec3 f0 f0_5 f0) (glm.splat f1) white true 0.

(** It alone in the scene, selected, no drag in progress. *)
Definition selected_scene (m : TransformationMode) : State :=
  mkState [unit_object] 0 (-1) false (Vec3 f0 f0 f0) m f4.

(** The unit object at the origin, selected, in rotate mode; and a ray along
    -x through (0, -1, 0), a point of the X ring of radius 1. *)
Definition rotate_scene : State :=
  mkState [scenarioA_object] 0 (-1) false (Vec3 f0 f0 f0) ROTATE f4.
Definition ring_origin : vec3 := Vec3 f5 (SFopp f1) f0.
Definition ring_direction : vec3 := Vec3 (SFopp f1) f0 f0.

(** A drag along X of the only object of the scene, with the given anchor. *)
Definition dragging_scene (m : TransformationMode) (anchor : vec3) (obj : Object)
    : State :=
  mkState [obj] 0 0 true anchor m f4.


(** The anchor and ray of Scenario D: the ray point is the origin and the
    anchor (1.25, 0, 0), so the movement along X is (-5, -0, -0). *)
Definition scenarioD_anchor : vec3 := Vec3 (lit 5 4) f0 f0.
Definition scenarioD_origin : vec3 := Vec3 f0 f0 f1.


Definition is_negative_zero (a : float) : bool :=
  match a with S754_zero true => true | _ => false end.

Definition has_negative_zero (v : vec3) : bool :=
  is_negative_zero (glm.x v) || is_negative_zero (glm.y v)
  || is_negative_zero (glm.z v).

(** Polynomial stand-ins for [cosf] and [sinf], to run the rotate case on a
    concrete input. *)
Definition cos_poly (a : float) : float := fsub f1 (fmul (fmul a a) f0_5).
Definition sin_poly (a : float) : float :=
  fsub a (fdiv (fmul (fmul a a) a) (lit 6 1)).

Definition misses (ray_origin ray_direction : vec3) (o : Object) : Prop :=
  RayIntersectsObject ray_origin ray_direction o = false.

(** Presses and a release aimed along -z from the plane z = 3: at the centre
    of the default cube, at the middle of its X arrow, and far from it. *)
Definition press_at (x y : float) : Event :=
  MouseButton GLFW_MOUSE_BUTTON_LEFT GLFW_PRESS false
    (Vec3 x y (lit 3 1)) towards_minus_z.
Definition release_at (x y : float) : Event :=
  MouseButton GLFW_MOUSE_BUTTON_LEFT GLFW_RELEASE false
    (Vec3 x y (lit 3 1)) towards_minus_z.

Definition press_cube : Event := press_at f0 f0_5.
Definition press_x_arrow : Event := press_at f0_5 f0_5.
Definition press_far : Event := press_at f5 f5.

(** The default cube selected and a drag along X started on it. *)
Definition drag_started : State :=
  mkState (objects initial_state) 0 0 true (Vec3 f0_5 f0_5 f2) TRANSLATE f4.

(** Two objects, the first off the ray and the second on it; the first one
    is selected and no arrow of it is near the ray. *)
Definition two_objects : State :=
  mkState [mkObject (Vec3 f0 f5 f0) (glm.splat f1) white true 0; unit_object]
          0 (-1) false (Vec3 f0 f0 f0) TRANSLATE f4.

(** A selected object is present: [selectedObject] indexes [objects]. *)
Definition selection_present (s : State) : Prop :=
  0 <= selectedObject s < Z.of_nat (length (objects s)).

(** A drag axis is present: [selectedAxis] is X, Y or Z. *)
Definition axis_present (s : State) : Prop := 0 <= selectedAxis s <= 2.

Definition drag_invariant (s : State) : Prop :=
  isDragging s = true -> axis_present s /\ selection_present s.

Definition is_left_press (ev : Event) : bool :=
  match ev with
  | MouseButton button action _ _ _ =>
      (button =? GLFW_MOUSE_BUTTON_LEFT) && (action =? GLFW_PRESS)
  | _ => false
  end.

Definition is_left_release (ev : Event) : bool :=
  match ev with
  | MouseButton button action _ _ _ =>
      (button =? GLFW_MOUSE_BUTTON_LEFT) && (action =? GLFW_RELEASE)
  | _ => false
  end.

(** Whether the left button is down after [ev], having been [held] before. *)
Definition held_after (held : bool) (ev : Event) : bool :=
  if is_left_press ev then true
  else if is_left_release ev then false
  else held.

(** The input source delivers a press of the left button only while the
    button is up: presses and releases alternate. *)
Fixpoint alternates (held : bool) (tr : list Event) : bool :=
  match tr with
  | [] => true
  | ev :: tr' =>
      negb (is_left_press ev && held) && alternates (held_after held ev) tr'
  end.

(** What holds of the globals in every state, whatever the order of the
    events. *)
Definition globals_ok (s : State) : Prop :=
  -1 <= selectedAxis s <= 2
  /\ (selectedObject s = -1 \/ selection_present s)
  /\ (isDragging s = true -> 0 <= selectedObject s).

(** What holds in addition when presses and releases alternate. *)
Definition drag_ok (held : bool) (s : State) : Prop :=
  (isDragging s = true -> 0 <= selectedAxis s)
  /\ (held = false -> isDragging s = false).

(** ** Further vocabulary: reversed rays, values up to the sign of zero *)

(** [-v] *)
Definition vec_neg (v : vec3) : vec3 :=
  Vec3 (SFopp (glm.x v)) (SFopp (glm.y v)) (SFopp (glm.z v)).

(** [b] is the opposite of [a], or both are zeros (of any signs): how the
    same computation on a reversed vector relates to the original one. *)
Definition opposite_or_zeros (a b : float) : Prop :=
  b = SFopp a \/ (is_zero a = true /\ is_zero b = true).

(** The same float, except that a zero may have changed its sign. *)
Definition same_value (a b : float) : Prop :=
  a = b \/ (is_zero a = true /\ is_zero b = true).

Definition same_vec (u v : vec3) : Prop :=
  same_value (glm.x u) (glm.x v) /\ same_value (glm.y u) (glm.y v)
  /\ same_value (glm.z u) (glm.z v).

Definition posinf_or_nan (a : float) : bool :=
  match a with S754_infinity false | S754_nan => true | _ => false end.

Definition nan_vec : vec3 := Vec3 S754_nan S754_nan S754_nan.

(** What a press decides about the scene and the selection. *)
Definition selection_outcome (r : option State)
    : option (list Object * Z * Z * bool) :=
  s ← r; Some (objects s, selectedObject s, selectedAxis s, isDragging s).

(** ** The render loop's gizmo dispatch and the arrow colours *)

(** The object and mode the render loop hands to the gizmo renderers:
    [if (selectedObject >= 0) switch (currentMode) ...
    objects[selectedObject]].  The inner [None] is "no gizmo is drawn". *)
Definition main_gizmo_target (s : State)
    : option (option (TransformationMode * Object)) :=
  if 0 <=? selectedObject s
  then obj ← object_at (objects s) (selectedObject s);
       Some (Some (currentMode s, obj))
  else Some None.

(** The colours [xColor], [yColor], [zColor] of [RenderGizmo]. *)
Definition RenderGizmo_colors (s : State) : vec4 * vec4 * vec4 :=
  (if (selectedAxis s =? 0) && isDragging s
   then Vec4 f1 f0_5 f0_5 f1 else Vec4 f1 f0 f0 f1,
   if (selectedAxis s =? 1) && isDragging s
   then Vec4 f0_5 f1 f0_5 f1 else Vec4 f0 f1 f0 f1,
   if (selectedAxis s =? 2) && isDragging s
   then Vec4 f0_5 f0_5 f1 f1 else Vec4 f0 f0 f1 f1).

(** The lightened colour of the arrow of axis [k], and its plain colour. *)
Definition light_color (k : Z) : vec4 :=
  if k =? 0 then Vec4 f1 f0_5 f0_5 f1
  else if k =? 1 then Vec4 f0_5 f1 f0_5 f1
  else Vec4 f0_5 f0_5 f1 f1.
Definition plain_color (k : Z) : vec4 :=
  if k =? 0 then Vec4 f1 f0 f0 f1
  else if k =? 1 then Vec4 f0 f1 f0 f1
  else Vec4 f0 f0 f1 f1.

(** The colour [RenderGizmo] gives the arrow of axis [k] (0, 1 or 2). *)
Definition arrow_color (s : State) (k : Z) : vec4 :=
  let '(xColor, yColor, zColor) := RenderGizmo_colors s in
  if k =? 0 then xColor else if k =? 1 then yColor else zColor.

(** ** Vocabulary for runs *)

Definition is_frame (ev : Event) : Prop :=
  match ev with Frame _ _ => True | _ => False end.

Definition is_add (ev : Event) : bool :=
  match ev with
  | Panel ButtonAddCube | Panel ButtonAddSphere => true
  | _ => false
  end.

(** The number of "Add Cube" and "Add Sphere" clicks in a run. *)
Fixpoint count_adds (tr : list Event) : nat :=
  match tr with
  | [] => 0%nat
  | ev :: tr' => ((if is_add ev then 1 else 0) + count_adds tr')%nat
  end.


(** The state a release of the left button leaves. *)
Definition released (s : State) : State :=
  set_selectedAxis (-1) (set_isDragging false s).

(** No component of the scale compares below the floor 0.1 of the scale
    drag. *)
Definition above_floor (v : vec3) : Prop :=
  fltb (glm.x v) f0_1 = false /\ fltb (glm.y v) f0_1 = false
  /\ fltb (glm.z v) f0_1 = false.

Definition scale_above_floor (o : Object) : Prop := above_floor (scale o).

(** An event that is not a scale edit below the floor (the settings window
    asks ImGui to keep the scale between 0.1 and 100). *)
Definition respects_floor (ev : Event) : Prop :=
  match ev with
  | Settings (DragScale v) => above_floor v
  | _ => True
  end.

(** ** The cursor callback *)

(** A C++ [double] (binary64), and [static_cast<float>] of one: rounding to
    nearest-even into binary32, an out of range value becoming an
    infinity. *)
Definition double : Type := spec_float.

Definition static_cast_float (d : double) : float :=
  match d with
  | S754_finite sg m e => binary_round prec32 emax32 sg m e
  | _ => d
  end.

(** The globals of the camera look. *)
Record LookState : Type := mkLook {
  firstMouse : bool;
  lastX : float;
  lastY : float
}.

(** [lastX = SCR_WIDTH / 2.0f], [lastY = SCR_HEIGHT / 2.0f], [firstMouse =
    true]. *)
Definition look_initial : LookState :=
  mkLook true (fdiv (lit 1920 1) f2) (fdiv (lit 1080 1) f2).

(** [mouse_callback].  [right_pressed] is whether [glfwGetMouseButton]
    reports the right button down; the second component is the pair of
    offsets passed to [camera.ProcessMouseMovement], when it is called. *)
Definition mouse_callback (right_pressed : bool) (xposIn yposIn : double)
    (c : LookState) : LookState * option (float * float) :=
  if right_pressed then
    let xpos := static_cast_float xposIn in
    let ypos := static_cast_float yposIn in
    let c := if firstMouse c then mkLook false xpos ypos else c in
    let xoffset := fsub xpos (lastX c) in
    let yoffset := fsub (lastY c) ypos in
    let c := mkLook (firstMouse c) xpos ypos in
    let sensitivity := f0_1 in
    let xoffset := fmul xoffset sensitivity in
    let yoffset := fmul yoffset sensitivity in
    (c, Some (xoffset, yoffset))
  else (mkLook true (lastX c) (lastY c), None).

(** ** Grid and sphere geometry *)

(** The loop of [SetupGrid], [for (float i = -size; i <= size; i += step)],
    run for at most [fuel] iterations: [None] when the loop has not ended by
    then. *)
Fixpoint SetupGrid_loop (fuel : nat) (i size step : float) (vertices : list float)
    : option (list float) :=
  match fuel with
  | O => None
  | S fuel' =>
      if fleb i size then
        SetupGrid_loop fuel' (fadd i step) size step
          (vertices ++ [i; f0; SFopp size;
                        i; f0; size;
                        SFopp size; f0; i;
                        size; f0; i])
      else Some vertices
  end.

(** [SetupGrid]: the vertex data and [gridVertexCount]. *)
Definition SetupGrid (fuel : nat) (size step : float) : option (list float * Z) :=
  vertices ← SetupGrid_loop fuel (SFopp size) size step [];
  Some (vertices, Z.of_nat (length vertices) / 3).

(** The vertices a flat list of coordinates stands for. *)
Fixpoint vertices_of (l : list float) : list vec3 :=
  match l with
  | a :: b :: c :: l' => Vec3 a b c :: vertices_of l'
  | _ => []
  end.

(** Conversion of an [int] to [float]. *)
Definition float_of_int (n : Z) : float := binary_normalize prec32 emax32 n 0 false.

(** [glm::pi<float>()] *)
Definition pi_f : float :=
  lit 314159265358979323846264338327950288 100000000000000000000000000000000000.

Section Sphere.
(** The sine and cosine the source calls on a [float]. *)
Variables cosf sinf : float -> float.

(** The five floats [SetupSphere] pushes for the vertex [(lat, lon)]. *)
Definition sphere_vertex (latitudeBands longitudeBands : Z) (lat lon : Z)
    : list float :=
  let radius := f0_5 in
  let theta := fdiv (fmul (float_of_int lat) pi_f) (float_of_int latitudeBands) in
  let sinTheta := sinf theta in
  let cosTheta := cosf theta in
  let phi := fdiv (fmul (float_of_int (lon * 2)) pi_f) (float_of_int longitudeBands) in
  let sinPhi := sinf phi in
  let cosPhi := cosf phi in
  let x := fmul cosPhi sinTheta in
  let y := cosTheta in
  let z := fmul sinPhi sinTheta in
  let u := fsub f1 (fdiv (float_of_int lon) (float_of_int longitudeBands)) in
  let v := fsub f1 (fdiv (float_of_int lat) (float_of_int latitudeBands)) in
  [fmul radius x; fmul radius y; fmul radius z; u; v].

(** The first pair of loops: [lat] and [lon] from 0 to the band counts
    inclusive. *)
Definition sphere_vertices (latitudeBands longitudeBands : nat) : list float :=
  flat_map (fun lat =>
    flat_map (fun lon =>
      sphere_vertex (Z.of_nat latitudeBands) (Z.of_nat longitudeBands)
                    (Z.of_nat lat) (Z.of_nat lon))
      (seq 0 (S longitudeBands)))
    (seq 0 (S latitudeBands)).
End Sphere.

(** The six indices pushed for the quad [(lat, lon)]. *)
Definition sphere_quad (longitudeBands lat lon : Z) : list Z :=
  let first := lat * (longitudeBands + 1) + lon in
  let second := first + longitudeBands + 1 in
  [first; second; first + 1; second; second + 1; first + 1].

(** The second pair of loops: [lat] and [lon] below the band counts. *)
Definition sphere_indices (latitudeBands longitudeBands : nat) : list Z :=
  flat_map (fun lat =>
    flat_map (fun lon =>
      sphere_quad (Z.of_nat longitudeBands) (Z.of_nat lat) (Z.of_nat lon))
      (seq 0 longitudeBands))
    (seq 0 latitudeBands).

(** [SetupSphere]: the vertex data, the element indices and
    [sphereVertexCount], with the 30 by 30 bands of the source. *)
Definition SetupSphere (cosf sinf : float -> float) : list float * list Z * Z :=
  let vertices := sphere_vertices cosf sinf 30 30 in
  let indices := sphere_indices 30 30 in
  (vertices, indices, Z.of_nat (length indices)).

(** ** The arrows a frame draws *)

(** The colours of the arrows drawn in a frame, in the order X, Y, Z, for
    the target the render loop dispatches on: [RenderTranslationGizmo] is
    [RenderGizmo]; [RenderScalingGizmo] calls [RenderGizmo] before it draws
    its markers; [RenderRotationGizmo] draws three circles and no arrow; with
    no object selected no gizmo is drawn. *)
Definition gizmo_arrows (s : State) (target : option (TransformationMode * Object))
    : list vec4 :=
  match target with
  | None => []
  | Some (ROTATE, _) => []
  | Some (TRANSLATE, _) | Some (SCALE, _) =>
      let '(xColor, yColor, zColor) := RenderGizmo_colors s in
      [xColor; yColor; zColor]
  end.

Definition main_arrows (s : State) : option (list vec4) :=
  gizmo_arrows s <$> main_gizmo_target s.

(** ** Scenes for the rotate drag *)

(** Stand-ins for [cosf] and [sinf] that have the C library's values where
    the C standard fixes them: cos of a zero is 1, sin of a zero is that
    zero, both are NaN at an infinity and at NaN; the polynomials
    elsewhere. *)
Definition cos_std (a : float) : float :=
  match a with
  | S754_zero _ => f1
  | S754_infinity _ | S754_nan => S754_nan
  | S754_finite _ _ _ => cos_poly a
  end.
Definition sin_std (a : float) : float :=
  match a with
  | S754_zero _ => a
  | S754_infinity _ | S754_nan => S754_nan
  | S754_finite _ _ _ => sin_poly a
  end.

(** The unit object at (-0.0, 0.5, 0). *)
Definition negzero_object : Object :=
  mkObject (Vec3 negative_zero f0_5 f0) (glm.splat f1) white true 0.

(** 2^62: four times it, squared, is beyond the binary32 range. *)
Definition two_62 : float := S754_finite false 8388608 39.

(** ** A scene for the translate drag *)


(** * The literals of the source as binary32 numbers *)

Lemma literal_values :
  f0_1 = S754_finite false 13421773 (-27)
  /\ f0_2 = S754_finite false 13421773 (-26)
  /\ f0_5 = S754_finite false 8388608 (-24)
  /\ f1 = S754_finite false 8388608 (-23)
  /\ f2 = S754_finite false 8388608 (-22)
  /\ f4 = S754_finite false 8388608 (-21)
  /\ f5 = S754_finite false 10485760 (-21)
  /\ glm.deg2rad = S754_finite false 9370165 (-29).
Proof. repeat split. Qed.

Lemma startPosition_value : startPosition = Vec3 f0 f0_5 f0.
Proof. reflexivity. Qed.

(** * Facts about binary32 arithmetic on zeros, infinities and NaN *)

Ltac float_cases a := destruct a as [[]|[]| |[] ? ?].

Ltac float_unfold :=
  unfold zero_or_nan, is_zero, is_nan, is_finite, fadd, fsub, fmul, fdiv,
    fsqrt, fabs, fltb, feqb, fleb, SFltb, SFeqb, SFleb, f0 in *.

Ltac float_crush :=
  float_unfold; simpl in *; try discriminate; try reflexivity; auto.

Lemma zn_mul_l a b : zero_or_nan a = true -> zero_or_nan (fmul a b) = true.
Proof. intros H. float_cases a; float_cases b; float_crush. Qed.

Lemma zn_mul_r a b : zero_or_nan b = true -> zero_or_nan (fmul a b) = true.
Proof. intros H. float_cases a; float_cases b; float_crush. Qed.

Lemma zn_add a b :
  zero_or_nan a = true -> zero_or_nan b = true -> zero_or_nan (fadd a b) = true.
Proof. intros Ha Hb. float_cases a; float_cases b; float_crush. Qed.

Lemma zn_sub a b :
  zero_or_nan a = true -> zero_or_nan b = true -> zero_or_nan (fsub a b) = true.
Proof. intros Ha Hb. float_cases a; float_cases b; float_crush. Qed.

Lemma zn_sqrt a : zero_or_nan a = true -> zero_or_nan (fsqrt a) = true.
Proof. intros H. float_cases a; float_crush. Qed.

Lemma zn_of_zero a : is_zero a = true -> zero_or_nan a = true.
Proof. intros H. float_cases a; float_crush. Qed.

Lemma zn_div_zn a b :
  zero_or_nan a = true -> zero_or_nan b = true -> fdiv a b = S754_nan.
Proof. intros Ha Hb. float_cases a; float_cases b; float_crush. Qed.

Lemma zn_not_positive a : zero_or_nan a = true -> fltb f0 a = false.
Proof. intros H. float_cases a; float_crush. Qed.

Lemma div_zn_not_finite a b : zero_or_nan b = true -> is_finite (fdiv a b) = false.
Proof. intros H. float_cases a; float_cases b; float_crush. Qed.

Lemma not_finite_mul_zero t c :
  is_finite t = false -> is_zero c = true -> fmul t c = S754_nan.
Proof. intros Ht Hc. float_cases t; float_cases c; float_crush. Qed.

Lemma fadd_nan_r a : fadd a S754_nan = S754_nan.
Proof. float_cases a; float_crush. Qed.

Lemma fsub_nan_l a : fsub S754_nan a = S754_nan.
Proof. float_cases a; float_crush. Qed.

(** The dot product of anything with a zero vector is a zero or NaN. *)
Lemma zn_dot_zero_r u d : zero_vec d = true -> zero_or_nan (glm.dot u d) = true.
Proof.
  unfold zero_vec, glm.dot. intros H.
  apply andb_prop in H as [H Hz]. apply andb_prop in H as [Hx Hy].
  repeat apply zn_add; apply zn_mul_r; apply zn_of_zero; assumption.
Qed.

Lemma zn_dot_zero_l d u : zero_vec d = true -> zero_or_nan (glm.dot d u) = true.
Proof.
  unfold zero_vec, glm.dot. intros H.
  apply andb_prop in H as [H Hz]. apply andb_prop in H as [Hx Hy].
  repeat apply zn_add; apply zn_mul_l; apply zn_of_zero; assumption.
Qed.

(** The length of the cross product of a zero vector with anything. *)
Lemma zn_length_cross_zero d u :
  zero_vec d = true -> zero_or_nan (glm.length (glm.cross d u)) = true.
Proof.
  unfold zero_vec, glm.length, glm.dot, glm.cross. simpl. intros H.
  apply andb_prop in H as [H Hz]. apply andb_prop in H as [Hx Hy].
  apply zn_of_zero in Hx, Hy, Hz.
  apply zn_sqrt.
  repeat apply zn_add; apply zn_mul_l; apply zn_sub;
    first [ apply zn_mul_l; assumption | apply zn_mul_r; assumption ].
Qed.

(** * Ray against bounding sphere *)

(** C1, as stated, fails: the ray from (1.5, 0, 5) towards -z touches the
    sphere of radius 1.5 around the origin in one point; its discriminant is
    exactly zero, hence non-negative, and the test answers false.  And a ray
    aimed through the centre of the unit object from 2^70 away is not
    reported either, the discriminant being inf - inf. *)
Lemma C1_tangent_ray_rejected :
  discriminant tangent_origin towards_minus_z tangent_object = S754_zero false
  /\ fleb f0 (discriminant tangent_origin towards_minus_z tangent_object) = true
  /\ RayIntersectsObject tangent_origin towards_minus_z tangent_object = false
  /\ RayIntersectsObject (Vec3 f0 f0 far_away) towards_minus_z scenarioA_object = false.
Proof. repeat split; vm_compute; reflexivity. Qed.

(** C1, amended: [RayIntersectsObject] answers true exactly when the
    discriminant [b*b - 4*a*c], computed in single precision with radius
    [0.5 * length(object.scale)], is strictly greater than zero; a
    discriminant that compares equal to zero (a tangent ray) or is NaN gives
    false; the ray of Scenario A, from (0,0,5) towards (0,0,-1) through the
    centre of the unit object at the origin, gives true. *)
Theorem C1_ray_sphere_strict :
  forall ray_origin ray_direction object,
    (let radius := fmul f0_5 (glm.length (scale object)) in
     let oc := glm.sub ray_origin (position object) in
     let a := glm.dot ray_direction ray_direction in
     let b := fmul f2 (glm.dot oc ray_direction) in
     let c := fsub (glm.dot oc oc) (fmul radius radius) in
     discriminant ray_origin ray_direction object
     = fsub (fmul b b) (fmul (fmul f4 a) c))
    /\ (RayIntersectsObject ray_origin ray_direction object = true
       <-> fltb f0 (discriminant ray_origin ray_direction object) = true)
    /\ (feqb (discriminant ray_origin ray_direction object) f0 = true
          -> RayIntersectsObject ray_origin ray_direction object = false)
    /\ (is_nan (discriminant ray_origin ray_direction object) = true
          -> RayIntersectsObject ray_origin ray_direction object = false)
    /\ RayIntersectsObject (Vec3 f0 f0 f5) towards_minus_z scenarioA_object = true.
Proof.
  intros o d obj. split; [reflexivity |]. unfold RayIntersectsObject.
  set (disc := discriminant o d obj). clearbody disc.
  repeat split.
  - destruct (fltb f0 disc); [reflexivity | discriminate].
  - intros ->. reflexivity.
  - float_cases disc; float_crush.
  - float_cases disc; float_crush.
Qed.

Lemma C1_ray_sphere_strict_witness :
  feqb (discriminant tangent_origin towards_minus_z tangent_object) f0 = true
  /\ RayIntersectsObject tangent_origin towards_minus_z tangent_object = false.
Proof.
  split; [vm_compute; reflexivity |].
  destruct (C1_ray_sphere_strict tangent_origin towards_minus_z tangent_object)
    as (_ & _ & Htangent & _).
  apply Htangent. vm_compute; reflexivity.
Defined.

(** * Degenerate rays *)

(** C7, as stated, fails: with the zero direction the distance function
    divides by [length(ray_direction)], which is zero, and returns NaN; the
    ring test divides by [dot(ray_direction, normal)], which is zero, and its
    plane parameter is an infinity. *)
Lemma C7_zero_direction_divides_by_zero :
  glm.length zero_direction = S754_zero false
  /\ DistanceFromRayToLineSegment (Vec3 f0 f0 f5) zero_direction
       (Vec3 f0 f0 f0) unit_x = S754_nan
  /\ glm.dot zero_direction unit_z = S754_zero false
  /\ plane_parameter (Vec3 f0 f0 f5) zero_direction (Vec3 f0 f0 f0) unit_z
     = S754_infinity true.
Proof. repeat split; vm_compute; reflexivity. Qed.

Lemma IsRayNearCircle_zero_direction o d c n rad :
  zero_vec d = true -> IsRayNearCircle o d c n rad = false.
Proof.
  intros Hd. unfold IsRayNearCircle.
  assert (Ht : is_finite (plane_parameter o d c n) = false).
  { apply div_zn_not_finite, zn_dot_zero_l, Hd. }
  set (t := plane_parameter o d c n) in *. clearbody t.
  destruct (fltb t f0); [reflexivity |].
  unfold zero_vec in Hd.
  apply andb_prop in Hd as [Hd Hz]. apply andb_prop in Hd as [Hx Hy].
  unfold glm.length, glm.dot, glm.sub, glm.add, glm.scale_l. simpl.
  rewrite (not_finite_mul_zero t _ Ht Hx).
  rewrite fadd_nan_r, fsub_nan_l. reflexivity.
Qed.

Lemma DistanceFromRayToLineSegment_zero_direction o d a b :
  zero_vec d = true -> DistanceFromRayToLineSegment o d a b = S754_nan.
Proof.
  intros Hd. unfold DistanceFromRayToLineSegment.
  apply zn_div_zn.
  - apply zn_length_cross_zero, Hd.
  - unfold glm.length. apply zn_sqrt, zn_dot_zero_l, Hd.
Qed.

Lemma RayIntersectsObject_zero_direction o d obj :
  zero_vec d = true -> RayIntersectsObject o d obj = false.
Proof.
  intros Hd. unfold RayIntersectsObject, discriminant.
  rewrite zn_not_positive; [reflexivity |].
  apply zn_sub.
  - apply zn_mul_l, zn_mul_r, zn_dot_zero_r, Hd.
  - apply zn_mul_l, zn_mul_r, zn_dot_zero_l, Hd.
Qed.

Lemma length_zero_vec d : zero_vec d = true -> glm.length d = S754_zero false.
Proof.
  destruct d as [dx dy dz]. unfold zero_vec. cbn [glm.x glm.y glm.z]. intros H.
  apply andb_prop in H as [H Hz]. apply andb_prop in H as [Hx Hy].
  float_cases dx; try discriminate Hx; float_cases dy; try discriminate Hy;
    float_cases dz; try discriminate Hz; reflexivity.
Qed.

(** C7, amended: the tests have no guard for a zero-length direction and do
    divide by zero, but none of them reports a hit.  For a direction whose
    three components are zeros, whatever the other arguments:
    [RayIntersectsObject] is false; [IsRayNearCircle], whose divisor
    [dot(ray_direction, normal)] is a zero or NaN, is false; and
    [DistanceFromRayToLineSegment], whose divisor [length(ray_direction)] is
    zero, is NaN (0/0), which is not below the gizmo click radius. *)
Theorem C7_zero_direction_never_hits :
  forall ray_direction, zero_vec ray_direction = true ->
  forall ray_origin object center normal radius line_start line_end,
    RayIntersectsObject ray_origin ray_direction object = false
    /\ IsRayNearCircle ray_origin ray_direction center normal radius = false
    /\ glm.length ray_direction = S754_zero false
    /\ zero_or_nan (glm.dot ray_direction normal) = true
    /\ DistanceFromRayToLineSegment ray_origin ray_direction line_start line_end
       = S754_nan
    /\ fltb (DistanceFromRayToLineSegment ray_origin ray_direction
               line_start line_end) gizmoClickRadius = false.
Proof.
  intros d Hd o obj c n rad a b.
  rewrite DistanceFromRayToLineSegment_zero_direction by assumption.
  split; [apply RayIntersectsObject_zero_direction, Hd |].
  split; [apply IsRayNearCircle_zero_direction, Hd |].
  split; [apply length_zero_vec, Hd |].
  split; [apply zn_dot_zero_l, Hd |].
  split; reflexivity.
Qed.

Lemma C7_zero_direction_never_hits_witness :
  zero_vec zero_direction = true
  /\ RayIntersectsObject (Vec3 f0 f0 f5) zero_direction scenarioA_object = false.
Proof.
  split; [reflexivity |].
  apply (C7_zero_direction_never_hits zero_direction eq_refl
           (Vec3 f0 f0 f5) scenarioA_object (Vec3 f0 f0 f0) unit_z f1
           (Vec3 f0 f0 f0) unit_x).
Defined.

(** * The press with the cursor over a panel *)

(** C8: when [WantCaptureMouse] is set, a press of the left button returns
    before any test: the callback succeeds and every global, hence the
    selection, the drag state and all objects, is what it was, whatever the
    ray. *)
Theorem C8_press_over_ui_is_noop :
  forall ray_origin ray_direction s,
    mouse_button_callback GLFW_MOUSE_BUTTON_LEFT GLFW_PRESS true
      ray_origin ray_direction s = Some s.
Proof. intros. reflexivity. Qed.

(** * Which gizmo test a press runs *)

Lemma gizmo_click_outcome ro rd s obj :
  object_at (objects s) (selectedObject s) = Some obj ->
  exists s',
    gizmo_click ro rd s = Some s'
    /\ objects s' = objects s
    /\ selectedObject s' = selectedObject s
    /\ currentMode s' = currentMode s
    /\ movementSensitivity s' = movementSensitivity s
    /\ selectedAxis s' =
         (if first_arrow ro rd (position obj) =? -1 then selectedAxis s
          else first_arrow ro rd (position obj))
    /\ isDragging s' =
         (if first_arrow ro rd (position obj) =? -1 then isDragging s else true)
    /\ initialClickPosition s' =
         (if isDragging s' then glm.add ro rd else initialClickPosition s).
Proof.
  intros Hobj. unfold gizmo_click, first_arrow. rewrite Hobj. simpl.
  destruct (near_arrow ro rd (position obj) unit_x);
    [| destruct (near_arrow ro rd (position obj) unit_y);
       [| destruct (near_arrow ro rd (position obj) unit_z)]];
    simpl; try (eexists; repeat split; reflexivity).
  destruct (isDragging s) eqn:Hd; eexists; repeat split;
    simpl; rewrite ?Hd; reflexivity.
Qed.

Lemma gizmo_click_none ro rd s :
  object_at (objects s) (selectedObject s) = None -> gizmo_click ro rd s = None.
Proof. intros H. unfold gizmo_click. rewrite H. reflexivity. Qed.






(** C2, the code at the failing input: in rotate mode, a press on the X
    rotation ring is accepted by the ring test, and [HandleGizmoInteraction]
    would start a drag about X; the callback, which runs the arrow tests in
    every mode, finds no arrow near, starts no drag and, the ray missing the
    bounding sphere, clears the selection.  Conversely a press on the X arrow,
    near no ring, starts a drag along axis 0 in rotate mode. *)
Lemma C2_rotate_mode_press_tests_arrows :
  IsRayNearCircle ring_origin ring_direction
    (position scenarioA_object) unit_x f1 = true
  /\ HandleGizmoInteraction ring_origin ring_direction rotate_scene
     = Some (set_isDragging true (set_selectedAxis 0 rotate_scene))
  /\ mouse_button_callback GLFW_MOUSE_BUTTON_LEFT GLFW_PRESS false
       ring_origin ring_direction rotate_scene
     = Some (set_selectedObject (-1) rotate_scene)
  /\ HandleGizmoInteraction (Vec3 f0_5 f0 f5) towards_minus_z rotate_scene
     = Some rotate_scene
  /\ mouse_button_callback GLFW_MOUSE_BUTTON_LEFT GLFW_PRESS false
       (Vec3 f0_5 f0 f5) towards_minus_z rotate_scene
     = Some (set_initialClickPosition (Vec3 f0_5 f0 f4)
               (set_isDragging true (set_selectedAxis 0 rotate_scene))).
Proof. repeat split; vm_compute; reflexivity. Qed.

(** * More binary32 facts: comparisons, [x - x], products with zero *)



Lemma feqb_refl a : is_finite a = true -> feqb a a = true.
Proof.
  float_cases a; float_unfold; simpl; try discriminate; try reflexivity; intros _;
    rewrite Z.compare_refl, Pos.compare_cont_refl; reflexivity.
Qed.

Lemma fmax_not_below c lo : feqb lo lo = true -> fltb (glm.fmax c lo) lo = false.
Proof.
  intros Hlo. unfold glm.fmax. destruct (fltb c lo) eqn:E; [| exact E].
  unfold fltb, feqb, SFltb, SFeqb in *.
  destruct (SFcompare lo lo) as [[]|]; congruence.
Qed.



Lemma fsub_self a : is_finite a = true -> fsub a a = S754_zero false.
Proof.
  float_cases a; float_unfold; simpl; try discriminate; try reflexivity; intros _;
    rewrite Z.min_id; unfold shl_align; rewrite Z.sub_diag; simpl;
    rewrite ?Z.pos_sub_diag; reflexivity.
Qed.

Lemma zero_mul_l a c : is_zero a = true -> is_finite c = true -> is_zero (fmul a c) = true.
Proof. intros Ha Hc. float_cases a; float_cases c; float_crush. Qed.

Lemma zero_mul_r a c : is_finite a = true -> is_zero c = true -> is_zero (fmul a c) = true.
Proof. intros Ha Hc. float_cases a; float_cases c; float_crush. Qed.

Lemma zero_sub a c : is_zero a = true -> is_zero c = true -> is_zero (fsub a c) = true.
Proof. intros Ha Hc. float_cases a; float_cases c; float_crush. Qed.

Lemma zero_add a c : is_zero a = true -> is_zero c = true -> is_zero (fadd a c) = true.
Proof. intros Ha Hc. float_cases a; float_cases c; float_crush. Qed.

Lemma pzero_add_zero c : is_zero c = true -> fadd f0 c = f0.
Proof. intros Hc. float_cases c; float_crush. Qed.

Lemma pzero_add_eqb c : is_finite c = true -> feqb (fadd f0 c) c = true.
Proof.
  intros Hc. float_cases c; try discriminate; try reflexivity;
    apply (feqb_refl (S754_finite _ m e)); reflexivity.
Qed.

Lemma pzero_add_same c :
  is_finite c = true -> c <> negative_zero -> fadd f0 c = c.
Proof.
  intros Hc Hn. float_cases c; try discriminate; try reflexivity.
  exfalso. apply Hn. reflexivity.
Qed.

(** * One frame of a drag *)

Lemma object_at_Some_nonneg l i obj : object_at l i = Some obj -> 0 <= i.
Proof. unfold object_at. destruct (i <? 0) eqn:E; [discriminate | lia]. Qed.

Lemma object_at_insert l i obj obj' :
  object_at l i = Some obj -> object_at (<[Z.to_nat i := obj']> l) i = Some obj'.
Proof.
  unfold object_at. destruct (i <? 0); [discriminate |]. intros H.
  apply list_lookup_insert_eq, (lookup_lt_Some _ _ _ H).
Qed.

Lemma axis_direction_Some ax d :
  axis_direction ax = Some d ->
  (ax = 0 /\ d = unit_x) \/ (ax = 1 /\ d = unit_y) \/ (ax = 2 /\ d = unit_z).
Proof.
  unfold axis_direction.
  destruct (ax =? 0) eqn:E0; [intros [= <-]; left; split; [lia | reflexivity] |].
  destruct (ax =? 1) eqn:E1; [intros [= <-]; right; left; split; [lia | reflexivity] |].
  destruct (ax =? 2) eqn:E2; [intros [= <-]; right; right; split; [lia | reflexivity] |].
  discriminate.
Qed.

(** While a drag is active the frame applies the transformation of the
    current mode to the selected object and re-seeds the anchor. *)
Lemma main_drag_dragging cosf sinf ro rd s obj axisDirection :
  isDragging s = true ->
  axis_direction (selectedAxis s) = Some axisDirection ->
  object_at (objects s) (selectedObject s) = Some obj ->
  main_drag cosf sinf ro rd s
  = Some (set_initialClickPosition (glm.add ro rd)
            (set_objects
               (<[Z.to_nat (selectedObject s) :=
                    apply_transformation cosf sinf
                      (drag_movement (glm.add ro rd) axisDirection s)
                      axisDirection s obj]> (objects s)) s)).
Proof.
  intros Hd Hax Hobj. unfold main_drag.
  pose proof (object_at_Some_nonneg _ _ _ Hobj) as Hsel.
  assert (Hax0 : 0 <= selectedAxis s)
    by (destruct (axis_direction_Some _ _ Hax) as [[]|[[]|[]]]; lia).
  rewrite Hd. simpl.
  destruct (0 <=? selectedObject s) eqn:E1; [| lia].
  destruct (0 <=? selectedAxis s) eqn:E2; [| lia].
  simpl. rewrite Hax. simpl. rewrite Hobj. reflexivity.
Qed.






(** * Rotation about the object's own centre *)

Lemma finite_vec_sub_self p : finite_vec p = true -> glm.sub p p = Vec3 f0 f0 f0.
Proof.
  unfold finite_vec, glm.sub. intros H.
  apply andb_prop in H as [H Hz]. apply andb_prop in H as [Hx Hy].
  rewrite !fsub_self by assumption. reflexivity.
Qed.

Lemma is_finite_f2 : is_finite f2 = true.
Proof. reflexivity. Qed.

(** A quaternion with finite components maps the zero vector to itself. *)
Lemma rotate_zero q :
  finite_quat q = true -> glm.rotate q (Vec3 f0 f0 f0) = Vec3 f0 f0 f0.
Proof.
  unfold finite_quat. intros H.
  apply andb_prop in H as [H Hqz]. apply andb_prop in H as [H Hqy].
  apply andb_prop in H as [Hw Hqx].
  assert (Hz : is_zero f0 = true) by reflexivity.
  assert (Hc : forall a b, is_finite a = true -> is_finite b = true ->
                 is_zero (fsub (fmul a f0) (fmul f0 b)) = true).
  { intros a b Ha Hb. apply zero_sub; [apply zero_mul_r | apply zero_mul_l]; assumption. }
  assert (Hcc : forall a b u v, is_finite a = true -> is_finite b = true ->
                 is_zero u = true -> is_zero v = true ->
                 is_zero (fsub (fmul a u) (fmul v b)) = true).
  { intros a b u v Ha Hb Hu Hv.
    apply zero_sub; [apply zero_mul_r | apply zero_mul_l]; assumption. }
  unfold glm.rotate, glm.add, glm.scale_r, glm.cross. simpl.
  f_equal; apply pzero_add_zero; apply zero_mul_l; try apply is_finite_f2;
    apply zero_add;
    first [ apply zero_mul_l; [apply Hc; assumption | assumption]
          | apply Hcc; try assumption; apply Hc; assumption ].
Qed.

Lemma pzero_add_vec_eqb p :
  finite_vec p = true -> vec_eqb (glm.add (Vec3 f0 f0 f0) p) p = true.
Proof.
  destruct p as [px py pz].
  unfold finite_vec, vec_eqb, glm.add. cbn [glm.x glm.y glm.z]. intros H.
  apply andb_prop in H as [H Hz]. apply andb_prop in H as [Hx Hy].
  rewrite !pzero_add_eqb by assumption. reflexivity.
Qed.

Lemma is_negative_zero_false a : is_negative_zero a = false -> a <> negative_zero.
Proof. intros H ->. discriminate H. Qed.

Lemma pzero_add_vec_same p :
  finite_vec p = true -> has_negative_zero p = false ->
  glm.add (Vec3 f0 f0 f0) p = p.
Proof.
  destruct p as [px py pz].
  unfold finite_vec, has_negative_zero, glm.add. cbn [glm.x glm.y glm.z].
  intros H Hn.
  apply andb_prop in H as [H Hz]. apply andb_prop in H as [Hx Hy].
  apply orb_false_elim in Hn as [Hn Hnz]. apply orb_false_elim in Hn as [Hnx Hny].
  rewrite !pzero_add_same by (assumption || apply is_negative_zero_false; assumption).
  reflexivity.
Qed.

Lemma set_position_same obj : set_position (position obj) obj = obj.
Proof. destruct obj; reflexivity. Qed.

Lemma object_at_insert_same l i obj :
  object_at l i = Some obj -> <[Z.to_nat i := obj]> l = l.
Proof.
  unfold object_at. destruct (i <? 0); [discriminate |].
  apply list_insert_id.
Qed.

(** C5, as stated, fails on floats.  A frame of a rotate drag whose ray
    point is the anchor (angle 0) turns the x coordinate -0.0 of the
    selected object into +0.0: the position is not exactly what it was.  And
    a frame whose ray point is (2^62, 0, -1), a triple of finite numbers, with
    the anchor at the origin and the sensitivity 4.0, has a movement of
    length infinity, an infinite angle, and leaves NaN in every coordinate of
    the position (0, 0.5, 0). *)
Lemma C5_rotate_drag_changes_position :
  (exists s' obj',
      main_drag cos_std sin_std (Vec3 f1 f0 f0) unit_x
        (dragging_scene ROTATE (Vec3 f2 f0 f0) negzero_object) = Some s'
      /\ object_at (objects s') (selectedObject s') = Some obj'
      /\ glm.x (position negzero_object) = S754_zero true
      /\ glm.x (position obj') = S754_zero false
      /\ position obj' <> position negzero_object)
  /\ (exists s' obj',
      finite_vec (glm.add (Vec3 two_62 f0 f0) towards_minus_z) = true
      /\ movementSensitivity (dragging_scene ROTATE (Vec3 f0 f0 f0) unit_object) = f4
      /\ main_drag cos_std sin_std (Vec3 two_62 f0 f0) towards_minus_z
           (dragging_scene ROTATE (Vec3 f0 f0 f0) unit_object) = Some s'
      /\ object_at (objects s') (selectedObject s') = Some obj'
      /\ position unit_object = Vec3 f0 f0_5 f0
      /\ position obj' = nan_vec).
Proof.
  split.
  - eexists. eexists. split; [vm_compute; reflexivity |].
    split; [vm_compute; reflexivity |].
    split; [reflexivity |]. split; [reflexivity |].
    vm_compute. discriminate.
  - eexists. eexists. split; [vm_compute; reflexivity |].
    split; [reflexivity |].
    split; [vm_compute; reflexivity |].
    split; [vm_compute; reflexivity |].
    split; reflexivity.
Qed.

(** C5, amended: in rotate mode a frame of an active drag rotates
    [position - objectCenter], which is the zero vector, and adds the centre
    back: for every axis, ray, anchor and sensitivity for which the position
    is a triple of finite numbers and the quaternion [glm::angleAxis] returns
    has finite components (the angle did not overflow), the new position is
    [0 + position], it compares equal to the old one in every component, and
    it is identical to it, so that the whole scene is unchanged, unless a
    component was the negative zero, which becomes the positive zero. *)
Theorem C5_rotate_drag_keeps_position :
  forall cosf sinf ray_origin ray_direction s obj axisUnitVector,
    isDragging s = true ->
    currentMode s = ROTATE ->
    axis_direction (selectedAxis s) = Some axisUnitVector ->
    object_at (objects s) (selectedObject s) = Some obj ->
    finite_vec (position obj) = true ->
    finite_quat
      (drag_rotation cosf sinf
         (drag_movement (glm.add ray_origin ray_direction) axisUnitVector s)
         axisUnitVector s) = true ->
    exists s' obj',
      main_drag cosf sinf ray_origin ray_direction s = Some s'
      /\ object_at (objects s') (selectedObject s') = Some obj'
      /\ obj' = set_position (glm.add (Vec3 f0 f0 f0) (position obj)) obj
      /\ vec_eqb (position obj') (position obj) = true
      /\ (has_negative_zero (position obj) = false ->
          obj' = obj /\ objects s' = objects s).
Proof.
  intros cosf sinf ro rd s obj ax Hd Hm Hax Hobj Hfin Hq.
  pose proof (main_drag_dragging cosf sinf ro rd s obj ax Hd Hax Hobj) as E.
  unfold apply_transformation in E. rewrite Hm in E.
  rewrite (finite_vec_sub_self _ Hfin), (rotate_zero _ Hq) in E.
  eexists. eexists. split; [exact E |].
  split; [simpl; apply object_at_insert with (obj := obj); exact Hobj |].
  split; [reflexivity |].
  split; [simpl; apply pzero_add_vec_eqb; exact Hfin |].
  intros Hn. simpl.
  rewrite (pzero_add_vec_same _ Hfin Hn), set_position_same.
  split; [reflexivity | apply object_at_insert_same; exact Hobj].
Qed.

Lemma C5_rotate_drag_keeps_position_witness :
  exists s' obj',
    main_drag cos_poly sin_poly (Vec3 f1 f0 f0) unit_x
      (dragging_scene ROTATE (Vec3 f0 f0 f0) unit_object) = Some s'
    /\ object_at (objects s') (selectedObject s') = Some obj'
    /\ obj' = unit_object
    /\ objects s' = [unit_object].
Proof.
  destruct (C5_rotate_drag_keeps_position cos_poly sin_poly (Vec3 f1 f0 f0) unit_x
              (dragging_scene ROTATE (Vec3 f0 f0 f0) unit_object)
              unit_object unit_x eq_refl eq_refl eq_refl eq_refl eq_refl)
    as (s' & obj' & E & Hobj & _ & _ & Hsame).
  { vm_compute. reflexivity. }
  exists s', obj'. split; [exact E |]. split; [exact Hobj |].
  destruct (Hsame eq_refl) as [H1 H2]. split; assumption.
Defined.

(** * Object picking *)

Lemma static_cast_int_small k : 0 <= k <= INT_MAX -> static_cast_int k = k.
Proof.
  unfold static_cast_int, INT_MAX. intros H.
  rewrite Z.mod_small by lia.
  destruct (k <? 2147483648) eqn:E; lia.
Qed.

Lemma pick_loop_miss ro rd l i sel :
  Forall (misses ro rd) l -> pick_loop ro rd l i sel = sel.
Proof.
  intros H. revert i. induction H as [| o l Ho _ IH]; intros i; simpl.
  - reflexivity.
  - rewrite Ho. apply IH.
Qed.

Lemma pick_loop_hit ro rd pre o post i sel :
  Forall (misses ro rd) pre ->
  RayIntersectsObject ro rd o = true ->
  pick_loop ro rd (pre ++ o :: post) i sel
  = static_cast_int (i + Z.of_nat (length pre)).
Proof.
  intros H Ho. revert i. induction H as [| o' l Ho' _ IH]; intros i; simpl.
  - rewrite Ho. f_equal. lia.
  - rewrite Ho'. rewrite IH. f_equal. lia.
Qed.

(** The loop leaves [selectedObject] at -1 or at an index of the sequence. *)
Lemma pick_loop_range ro rd l i :
  0 <= i -> i + Z.of_nat (length l) <= INT_MAX + 1 ->
  pick_loop ro rd l i (-1) = -1
  \/ i <= pick_loop ro rd l i (-1) < i + Z.of_nat (length l).
Proof.
  revert i. induction l as [| o l IH]; intros i Hi Hlen; simpl in *.
  - left. reflexivity.
  - destruct (RayIntersectsObject ro rd o).
    + right. rewrite static_cast_int_small by lia. lia.
    + destruct (IH (i + 1)) as [H | H]; [lia | lia | left; exact H | right; lia].
Qed.

(** The press branch when no drag is in progress and no arrow is near (or
    nothing is selected): the axis is reset and the picking loop runs. *)
Lemma press_picks ro rd s :
  isDragging s = false ->
  (selectedObject s < 0
   \/ exists obj, object_at (objects s) (selectedObject s) = Some obj
                  /\ first_arrow ro rd (position obj) = -1) ->
  mouse_button_callback GLFW_MOUSE_BUTTON_LEFT GLFW_PRESS false ro rd s
  = Some (pick_object ro rd (set_selectedAxis (-1) s)).
Proof.
  intros Hd Hsel. unfold mouse_button_callback. simpl.
  destruct Hsel as [Hneg | (obj & Hobj & Hfa)].
  - destruct (0 <=? selectedObject s) eqn:E; [lia |].
    simpl. rewrite Hd, orb_true_r. reflexivity.
  - pose proof (object_at_Some_nonneg _ _ _ Hobj) as Hnn.
    destruct (0 <=? selectedObject s) eqn:E; [| lia].
    destruct (gizmo_click_outcome ro rd (set_selectedAxis (-1) s) obj Hobj)
      as (t & Et & Ot & St & Mt & Vt & At & Dt & It).
    rewrite Et. simpl in *. rewrite Hfa in At, Dt. simpl in At, Dt.
    rewrite Dt, Hd, orb_true_r.
    f_equal. rewrite Dt, Hd in It.
    destruct t; simpl in *; subst. reflexivity.
Qed.

(** C6: the code at the failing input.  After the cube is picked and a drag
    along X is started, a second press arriving before any release, far from
    every arrow and from the cube, matches no gizmo axis and no object, and
    yet the selection stays at object 0: the press resets the axis but leaves
    [isDragging] set, so the picking loop, which the claim has run whenever
    no gizmo axis is matched, is not entered. *)
Lemma C6_press_during_drag_keeps_selection :
  run cos_poly sin_poly initial_state [press_cube; release_at f0 f0_5; press_x_arrow]
  = Some drag_started
  /\ first_arrow (Vec3 f5 f5 (lit 3 1)) towards_minus_z startPosition = -1
  /\ Forall (misses (Vec3 f5 f5 (lit 3 1)) towards_minus_z) (objects drag_started)
  /\ (selectedObject <$> step cos_poly sin_poly drag_started press_far) = Some 0.
Proof.
  split; [vm_compute; reflexivity |].
  split; [vm_compute; reflexivity |].
  split; [| vm_compute; reflexivity].
  repeat constructor.
Qed.

(** X23: picking takes the first object in index order.  A press of the
    left button outside the panels, arriving while no drag is in progress,
    that matches no gizmo arrow (or arrives with nothing selected) resets the
    axis and runs the picking loop over an object sequence whose length fits
    an [int]: the callback succeeds without touching the objects; the first
    object in index order that the ray test accepts becomes the selection,
    whatever follows it in the sequence; when no object is accepted, and in
    particular when there is none, the selection is -1. *)
Theorem X23_idle_press_picks_first_match :
  forall ray_origin ray_direction s,
    isDragging s = false ->
    (selectedObject s < 0
     \/ exists obj, object_at (objects s) (selectedObject s) = Some obj
                    /\ first_arrow ray_origin ray_direction (position obj) = -1) ->
    Z.of_nat (length (objects s)) <= INT_MAX ->
    exists s',
      mouse_button_callback GLFW_MOUSE_BUTTON_LEFT GLFW_PRESS false
        ray_origin ray_direction s = Some s'
      /\ objects s' = objects s
      /\ isDragging s' = false
      /\ selectedAxis s' = -1
      /\ (forall pre o post,
            objects s = pre ++ o :: post ->
            Forall (misses ray_origin ray_direction) pre ->
            RayIntersectsObject ray_origin ray_direction o = true ->
            selectedObject s' = Z.of_nat (length pre)
            /\ object_at (objects s') (selectedObject s') = Some o)
      /\ (Forall (misses ray_origin ray_direction) (objects s) ->
          selectedObject s' = -1)
      /\ (objects s = [] -> selectedObject s' = -1).
Proof.
  intros ro rd s Hd Hsel Hlen.
  eexists. split; [apply press_picks; assumption |].
  split; [reflexivity |]. split; [exact Hd |]. split; [reflexivity |].
  cbn [pick_object selectedObject objects set_selectedObject set_selectedAxis].
  split; [| split].
  - intros pre o post Hobjs Hpre Ho.
    rewrite Hobjs, (pick_loop_hit ro rd pre o post 0 (-1) Hpre Ho).
    rewrite Hobjs, length_app in Hlen. cbn [length] in Hlen.
    rewrite static_cast_int_small by lia.
    split; [reflexivity |].
    unfold object_at. rewrite Z.add_0_l.
    destruct (Z.of_nat (length pre) <? 0) eqn:E; [lia |].
    rewrite Nat2Z.id. apply list_lookup_middle. reflexivity.
  - intros Hall. apply pick_loop_miss, Hall.
  - intros ->. reflexivity.
Qed.

Lemma X23_idle_press_picks_first_match_witness :
  exists s',
    mouse_button_callback GLFW_MOUSE_BUTTON_LEFT GLFW_PRESS false
      (Vec3 f0 f0_5 (lit 3 1)) towards_minus_z two_objects = Some s'
    /\ selectedObject s' = 1
    /\ object_at (objects s') (selectedObject s') = Some unit_object.
Proof.
  destruct (X23_idle_press_picks_first_match (Vec3 f0 f0_5 (lit 3 1)) towards_minus_z
              two_objects eq_refl) as (s' & E & _ & _ & _ & Hhit & _).
  { right. eexists. split; [reflexivity | vm_compute; reflexivity]. }
  { vm_compute. discriminate. }
  exists s'. split; [exact E |].
  apply (Hhit [mkObject (Vec3 f0 f5 f0) (glm.splat f1) white true 0]
              unit_object []); [reflexivity | |].
  - repeat constructor.
  - vm_compute. reflexivity.
Defined.

(** * The drag-state invariant *)

Lemma first_arrow_range ro rd p :
  first_arrow ro rd p = -1 \/ 0 <= first_arrow ro rd p <= 2.
Proof.
  unfold first_arrow.
  destruct (near_arrow ro rd p unit_x); [right; lia |].
  destruct (near_arrow ro rd p unit_y); [right; lia |].
  destruct (near_arrow ro rd p unit_z); [right; lia | left; reflexivity].
Qed.

Lemma selection_present_object s :
  selection_present s -> exists obj, object_at (objects s) (selectedObject s) = Some obj.
Proof.
  unfold selection_present, object_at. intros [H0 H1].
  destruct (selectedObject s <? 0) eqn:E; [lia |].
  apply lookup_lt_is_Some. lia.
Qed.

(** The press, outside the panels, in a state where the globals are sound:
    it succeeds, leaves the objects alone and keeps the globals sound; when
    no drag was in progress, a drag it leaves behind has its axis. *)
Lemma press_globals_ok ro rd s :
  globals_ok s -> Z.of_nat (length (objects s)) <= INT_MAX ->
  exists s',
    mouse_button_callback GLFW_MOUSE_BUTTON_LEFT GLFW_PRESS false ro rd s = Some s'
    /\ objects s' = objects s
    /\ globals_ok s'
    /\ (isDragging s = false -> isDragging s' = true -> 0 <= selectedAxis s').
Proof.
  intros (Hax & Hsel & Hdsel) Hlen.
  assert (Hpick : forall t, objects t = objects s -> -1 <= selectedAxis t <= 2 ->
            isDragging t = false ->
            globals_ok (pick_object ro rd t)).
  { intros t Ho Ha Hd. unfold globals_ok, selection_present. simpl.
    rewrite Hd, Ho. split; [exact Ha |]. split; [| discriminate].
    destruct (pick_loop_range ro rd (objects s) 0) as [H | H]; [lia | lia | |].
    - left. exact H.
    - right. lia. }
  unfold mouse_button_callback. simpl.
  destruct (0 <=? selectedObject s) eqn:Esel.
  - destruct Hsel as [Hsel | Hsel]; [lia |].
    destruct (selection_present_object s Hsel) as (obj & Hobj).
    destruct (gizmo_click_outcome ro rd (set_selectedAxis (-1) s) obj Hobj)
      as (t & Et & Ot & St & _ & _ & At & Dt & _).
    rewrite Et. simpl in *.
    pose proof (first_arrow_range ro rd (position obj)) as Hfa.
    assert (Haxt : -1 <= selectedAxis t <= 2).
    { rewrite At. destruct (first_arrow ro rd (position obj) =? -1); lia. }
    destruct (isDragging t) eqn:Edt.
    + destruct (selectedObject t =? -1) eqn:E1; [lia |]. simpl.
      eexists. split; [reflexivity |]. split; [exact Ot |].
      split.
      * unfold globals_ok, selection_present. rewrite St, Ot.
        split; [exact Haxt |]. split; [right; exact Hsel |]. intros _. lia.
      * intros Hd _. rewrite Hd in Dt. rewrite At.
        destruct (first_arrow ro rd (position obj) =? -1) eqn:E; [discriminate | lia].
    + rewrite orb_true_r.
      eexists. split; [reflexivity |]. split; [exact Ot |].
      split; [apply Hpick; assumption |].
      simpl. rewrite Edt. discriminate.
  - simpl.
    destruct ((selectedObject s =? -1) || negb (isDragging s)) eqn:Ec.
    + destruct (isDragging s) eqn:Ed.
      * specialize (Hdsel eq_refl). lia.
      * eexists. split; [reflexivity |]. split; [reflexivity |].
        split; [apply Hpick; simpl; auto; lia |].
        simpl. rewrite Ed. discriminate.
    + destruct (isDragging s) eqn:Ed.
      * specialize (Hdsel eq_refl). lia.
      * rewrite orb_true_r in Ec. discriminate.
Qed.

Lemma globals_ok_same_drag s t :
  selectedAxis t = selectedAxis s -> selectedObject t = selectedObject s ->
  isDragging t = isDragging s ->
  (length (objects s) <= length (objects t))%nat ->
  globals_ok s -> globals_ok t.
Proof.
  unfold globals_ok, selection_present. intros -> -> -> Hlen (Ha & Hs & Hd).
  split; [exact Ha |]. split; [| exact Hd].
  destruct Hs as [Hs | Hs]; [left; exact Hs | right; lia].
Qed.

Lemma drag_ok_same_drag held s t :
  selectedAxis t = selectedAxis s -> isDragging t = isDragging s ->
  drag_ok held s -> drag_ok held t.
Proof. unfold drag_ok. intros -> ->. trivial. Qed.

Lemma main_drag_globals_ok cosf sinf ro rd s :
  globals_ok s ->
  exists s',
    main_drag cosf sinf ro rd s = Some s'
    /\ selectedAxis s' = selectedAxis s
    /\ selectedObject s' = selectedObject s
    /\ isDragging s' = isDragging s
    /\ length (objects s') = length (objects s).
Proof.
  intros (Ha & Hs & Hd).
  destruct (isDragging s && (0 <=? selectedObject s) && (0 <=? selectedAxis s))
    eqn:Eguard.
  - apply andb_prop in Eguard as [Eguard Eax].
    apply andb_prop in Eguard as [Edrag Esel].
    destruct Hs as [Hs | Hs]; [lia |].
    destruct (selection_present_object s Hs) as (obj & Hobj).
    assert (Hdir : exists d, axis_direction (selectedAxis s) = Some d).
    { unfold axis_direction.
      destruct (selectedAxis s =? 0) eqn:E0; [eauto |].
      destruct (selectedAxis s =? 1) eqn:E1; [eauto |].
      destruct (selectedAxis s =? 2) eqn:E2; [eauto | lia]. }
    destruct Hdir as (d & Hdir).
    rewrite (main_drag_dragging cosf sinf ro rd s obj d Edrag Hdir Hobj).
    eexists. split; [reflexivity |]. simpl.
    rewrite length_insert. repeat split.
  - unfold main_drag. rewrite Eguard. eexists. repeat split.
Qed.

Lemma RenderObjectSettings_same_drag e s :
  selectedAxis (RenderObjectSettings e s) = selectedAxis s
  /\ selectedObject (RenderObjectSettings e s) = selectedObject s
  /\ isDragging (RenderObjectSettings e s) = isDragging s
  /\ length (objects (RenderObjectSettings e s)) = length (objects s).
Proof.
  unfold RenderObjectSettings.
  destruct ((selectedObject s <? 0)
            || (Z.of_nat (length (objects s)) <=? selectedObject s));
    [repeat split |].
  destruct (objects s !! Z.to_nat (selectedObject s)); [| repeat split].
  simpl. rewrite length_insert. repeat split.
Qed.

Lemma RenderImGui_globals_ok w s :
  globals_ok s -> Z.of_nat (length (objects s)) <= INT_MAX ->
  globals_ok (RenderImGui w s)
  /\ selectedAxis (RenderImGui w s) = selectedAxis s
  /\ isDragging (RenderImGui w s) = isDragging s
  /\ (length (objects (RenderImGui w s)) <= length (objects s) + 1)%nat.
Proof.
  intros Hg Hlen.
  destruct w; simpl;
    try (split; [eapply globals_ok_same_drag; [.. | exact Hg]; simpl;
                 rewrite ?length_app; simpl; try reflexivity; lia
                | repeat split; rewrite ?length_app; simpl; lia]).
  destruct (i <? length (objects s))%nat eqn:Ei.
  - apply Nat.ltb_lt in Ei.
    destruct Hg as (Ha & Hs & Hd).
    split; [| repeat split; simpl; lia].
    unfold globals_ok, selection_present. simpl.
    rewrite static_cast_int_small by (unfold INT_MAX in *; lia).
    split; [exact Ha |]. split; [right; lia | intros _; lia].
  - split; [exact Hg |]. repeat split. lia.
Qed.

(** One input operation from a state with sound globals. *)
Lemma step_globals_ok cosf sinf s ev :
  globals_ok s -> Z.of_nat (length (objects s)) <= INT_MAX ->
  exists s',
    step cosf sinf s ev = Some s'
    /\ globals_ok s'
    /\ (length (objects s') <= length (objects s) + 1)%nat
    /\ (forall held, drag_ok held s -> is_left_press ev && held = false ->
        drag_ok (held_after held ev) s').
Proof.
  intros Hg Hlen. destruct ev as [button action want ro rd | ro rd | w | e].
  - unfold step, held_after, is_left_press, is_left_release.
    destruct ((button =? GLFW_MOUSE_BUTTON_LEFT) && (action =? GLFW_PRESS)) eqn:Ep.
    + apply andb_prop in Ep as [Eb Ea]. apply Z.eqb_eq in Eb, Ea. subst.
      destruct want.
      * exists s. split; [reflexivity |]. split; [exact Hg |]. split; [lia |].
        intros held (Hax & _) _. split; [exact Hax | discriminate].
      * destruct (press_globals_ok ro rd s Hg Hlen) as (s' & E & Ho & Hg' & Hnew).
        exists s'. split; [exact E |]. split; [exact Hg' |].
        split; [rewrite Ho; lia |].
        intros held (_ & Hidle) Hheld. simpl in Hheld. subst held.
        split; [apply Hnew, Hidle; reflexivity | discriminate].
    + destruct ((button =? GLFW_MOUSE_BUTTON_LEFT) && (action =? GLFW_RELEASE)) eqn:Er.
      * exists (set_selectedAxis (-1) (set_isDragging false s)).
        split; [unfold mouse_button_callback; rewrite Ep, Er; reflexivity |].
        destruct Hg as (Ha & Hs & Hd).
        split; [split; [simpl; lia | split; [exact Hs | discriminate]] |].
        split; [simpl; lia |].
        intros held _ _. split; [discriminate | reflexivity].
      * exists s.
        split; [unfold mouse_button_callback; rewrite Ep, Er; reflexivity |].
        split; [exact Hg |]. split; [lia |].
        intros held Hd _. exact Hd.
  - destruct (main_drag_globals_ok cosf sinf ro rd s Hg) as (s' & E & Ha & Hs & Hd & Hl).
    exists s'. split; [exact E |].
    split; [apply (globals_ok_same_drag s); solve [assumption | lia] |].
    split; [lia |].
    intros held Hok _. apply (drag_ok_same_drag held s); assumption.
  - destruct (RenderImGui_globals_ok w s Hg Hlen) as (Hg' & Ha & Hd & Hl).
    eexists. split; [reflexivity |]. split; [exact Hg' |]. split; [exact Hl |].
    intros held Hok _. apply (drag_ok_same_drag held s); assumption.
  - destruct (RenderObjectSettings_same_drag e s) as (Ha & Hs & Hd & Hl).
    eexists. split; [reflexivity |].
    split; [apply (globals_ok_same_drag s); solve [assumption | lia] |].
    split; [simpl; lia |].
    intros held Hok _. apply (drag_ok_same_drag held s); assumption.
Qed.

Lemma run_globals_ok cosf sinf tr :
  forall s,
    globals_ok s ->
    Z.of_nat (length (objects s)) + Z.of_nat (length tr) <= INT_MAX ->
    exists s',
      run cosf sinf s tr = Some s'
      /\ globals_ok s'
      /\ (forall held, drag_ok held s -> alternates held tr = true ->
          exists held', drag_ok held' s').
Proof.
  induction tr as [| ev tr IH]; intros s Hg Hlen.
  - exists s. split; [reflexivity |]. split; [exact Hg |]. eauto.
  - cbn [length] in Hlen.
    destruct (step_globals_ok cosf sinf s ev Hg) as (s1 & E1 & Hg1 & Hl1 & Hd1);
      [lia |].
    destruct (IH s1 Hg1) as (s' & E' & Hg' & Hd'); [lia |].
    exists s'. split; [simpl; rewrite E1; exact E' |]. split; [exact Hg' |].
    intros held Hok Halt. simpl in Halt.
    apply andb_prop in Halt as [Hpress Hrest].
    apply negb_true_iff in Hpress.
    apply (Hd' (held_after held ev)); [apply Hd1; assumption | exact Hrest].
Qed.

Lemma initial_state_ok : globals_ok initial_state /\ drag_ok false initial_state.
Proof.
  unfold globals_ok, drag_ok, selection_present. simpl.
  repeat split; try lia; try discriminate; auto.
Qed.

(** C9: the code at the failing input.  The cube is picked, a drag along X
    is started, and a further press arrives before any release, near no
    arrow; the callback resets the axis but not [isDragging], and the state
    reached, by input operations alone, is dragging without an axis: the
    invariant of the claim is broken. *)
Lemma C9_second_press_drops_axis :
  exists s,
    run cos_poly sin_poly initial_state
      [press_cube; release_at f0 f0_5; press_x_arrow; press_far] = Some s
    /\ isDragging s = true
    /\ selectedAxis s = -1
    /\ selectedObject s = 0.
Proof. eexists. vm_compute. repeat split. Qed.

(** X24: what holds of the drag state in every reachable state.  From the
    initial state, every sequence of input operations (presses and releases
    of any button, frames, panel widgets, object settings edits) short enough
    for the object count to fit an [int] runs without an access outside
    [objects], and in the state reached [isDragging] implies that a selected
    object is present; it also implies that a drag axis is present when the
    presses and releases of the left button alternate, that is when no press
    arrives while the button is down. *)
Theorem X24_drag_state_reachable :
  forall cosf sinf tr,
    Z.of_nat (length tr) < INT_MAX ->
    exists s,
      run cosf sinf initial_state tr = Some s
      /\ (isDragging s = true -> selection_present s)
      /\ (alternates false tr = true -> drag_invariant s).
Proof.
  intros cosf sinf tr Hlen.
  destruct initial_state_ok as [Hg0 Hd0].
  destruct (run_globals_ok cosf sinf tr initial_state Hg0)
    as (s & E & (Hax & Hsel & Hdsel) & Halt); [simpl; lia |].
  assert (Hpresent : isDragging s = true -> selection_present s).
  { intros Hd. specialize (Hdsel Hd). destruct Hsel as [Hsel | Hsel]; [lia | exact Hsel]. }
  exists s. split; [exact E |]. split; [exact Hpresent |].
  intros Ha Hd.
  destruct (Halt false Hd0 Ha) as (held' & Hax' & _).
  split; [| exact (Hpresent Hd)].
  unfold axis_present. specialize (Hax' Hd). lia.
Qed.

Lemma X24_drag_state_reachable_witness :
  exists s,
    run cos_poly sin_poly initial_state
      [press_cube; release_at f0 f0_5; press_x_arrow;
       Frame (Vec3 f1 f0_5 (lit 3 1)) towards_minus_z] = Some s
    /\ isDragging s = true
    /\ axis_present s /\ selection_present s.
Proof.
  destruct (X24_drag_state_reachable cos_poly sin_poly
              [press_cube; release_at f0 f0_5; press_x_arrow;
               Frame (Vec3 f1 f0_5 (lit 3 1)) towards_minus_z])
    as (s & E & _ & Hinv).
  { vm_compute. reflexivity. }
  exists s. split; [exact E |].
  assert (Hd : isDragging s = true).
  { revert E. vm_compute. intros [= <-]. reflexivity. }
  split; [exact Hd |]. apply Hinv; [reflexivity | exact Hd].
Defined.

(** * Reversing the ray: arithmetic on opposites *)

Lemma binary_round_aux_opp s m e l :
  binary_round_aux prec32 emax32 (negb s) m e l
  = SFopp (binary_round_aux prec32 emax32 s m e l).
Proof.
  unfold binary_round_aux.
  destruct (shr_fexp prec32 emax32 m e l) as [mrs e'].
  destruct (shr_fexp prec32 emax32 _ e' loc_Exact) as [mrs' e''].
  destruct (shr_m mrs'); try reflexivity.
  destruct (e'' <=? emax32 - prec32); reflexivity.
Qed.

Lemma binary_round_opp s m e :
  binary_round prec32 emax32 (negb s) m e
  = SFopp (binary_round prec32 emax32 s m e).
Proof.
  unfold binary_round.
  destruct (shl_align m e _) as [mz ez]. apply binary_round_aux_opp.
Qed.

Lemma SFopp_involutive a : SFopp (SFopp a) = a.
Proof. float_cases a; reflexivity. Qed.

Lemma fmul_opp_r a b : fmul a (SFopp b) = SFopp (fmul a b).
Proof.
  float_cases a; float_cases b; try reflexivity;
    unfold fmul, SFmul, SFopp; cbn [xorb negb];
    first [ apply (binary_round_aux_opp false) | apply (binary_round_aux_opp true)
          | symmetry; rewrite <- SFopp_involutive at 1; f_equal; symmetry;
            first [ apply (binary_round_aux_opp false) | apply (binary_round_aux_opp true) ] ].
Qed.

Lemma fmul_opp_l a b : fmul (SFopp a) b = SFopp (fmul a b).
Proof.
  float_cases a; float_cases b; try reflexivity;
    unfold fmul, SFmul, SFopp; cbn [xorb negb];
    first [ apply (binary_round_aux_opp false) | apply (binary_round_aux_opp true)
          | symmetry; rewrite <- SFopp_involutive at 1; f_equal; symmetry;
            first [ apply (binary_round_aux_opp false) | apply (binary_round_aux_opp true) ] ].
Qed.

Lemma binary_normalize_opp m e :
  opposite_or_zeros (binary_normalize prec32 emax32 m e false)
                    (binary_normalize prec32 emax32 (- m) e false).
Proof.
  destruct m as [| p | p]; simpl.
  - right. split; reflexivity.
  - left. apply (binary_round_opp false).
  - left. rewrite <- (SFopp_involutive (binary_round _ _ false p e)).
    f_equal. symmetry. apply (binary_round_opp false).
Qed.

Lemma cond_Zopp_negb s m : cond_Zopp (negb s) m = - cond_Zopp s m.
Proof. destruct s; simpl; lia. Qed.

Lemma fadd_opp a b : opposite_or_zeros (fadd a b) (fadd (SFopp a) (SFopp b)).
Proof.
  destruct a as [sa | sa | | sa ma ea]; destruct b as [sb | sb | | sb mb eb];
    try (destruct sa; destruct sb; (left; reflexivity) || (right; split; reflexivity));
    try (destruct sa; left; reflexivity);
    try (destruct sb; left; reflexivity);
    try (left; reflexivity).
  unfold fadd, SFadd, SFopp. rewrite !cond_Zopp_negb.
  replace (- cond_Zopp sa (Z.pos (fst (shl_align ma ea (Z.min ea eb))))
           + - cond_Zopp sb (Z.pos (fst (shl_align mb eb (Z.min ea eb)))))
    with (- (cond_Zopp sa (Z.pos (fst (shl_align ma ea (Z.min ea eb))))
             + cond_Zopp sb (Z.pos (fst (shl_align mb eb (Z.min ea eb)))))) by lia.
  apply binary_normalize_opp.
Qed.

Lemma fsub_opp a b : opposite_or_zeros (fsub a b) (fsub (SFopp a) (SFopp b)).
Proof.
  destruct a as [sa | sa | | sa ma ea]; destruct b as [sb | sb | | sb mb eb];
    try (destruct sa; destruct sb; (left; reflexivity) || (right; split; reflexivity));
    try (destruct sa; left; reflexivity);
    try (destruct sb; left; reflexivity);
    try (left; reflexivity).
  unfold fsub, SFsub, SFopp. rewrite !cond_Zopp_negb.
  replace (- cond_Zopp sa (Z.pos (fst (shl_align ma ea (Z.min ea eb))))
           - - cond_Zopp sb (Z.pos (fst (shl_align mb eb (Z.min ea eb)))))
    with (- (cond_Zopp sa (Z.pos (fst (shl_align ma ea (Z.min ea eb))))
             - cond_Zopp sb (Z.pos (fst (shl_align mb eb (Z.min ea eb)))))) by lia.
  apply binary_normalize_opp.
Qed.

Lemma opposite_or_zeros_opp a : opposite_or_zeros a (SFopp a).
Proof. left. reflexivity. Qed.

Ltac solve_opp_or_zeros :=
  first [ left; reflexivity | right; split; reflexivity ].

Lemma opposite_or_zeros_add a a' b b' :
  opposite_or_zeros a a' -> opposite_or_zeros b b' ->
  opposite_or_zeros (fadd a b) (fadd a' b').
Proof.
  intros [-> | [Ha Ha']] [-> | [Hb Hb']].
  - apply fadd_opp.
  - float_cases b; try discriminate; float_cases b'; try discriminate;
      float_cases a; solve_opp_or_zeros.
  - float_cases a; try discriminate; float_cases a'; try discriminate;
      float_cases b; solve_opp_or_zeros.
  - float_cases a; try discriminate; float_cases a'; try discriminate;
      float_cases b; try discriminate; float_cases b'; try discriminate;
      solve_opp_or_zeros.
Qed.

Lemma opposite_or_zeros_sub a a' b b' :
  opposite_or_zeros a a' -> opposite_or_zeros b b' ->
  opposite_or_zeros (fsub a b) (fsub a' b').
Proof.
  intros [-> | [Ha Ha']] [-> | [Hb Hb']].
  - apply fsub_opp.
  - float_cases b; try discriminate; float_cases b'; try discriminate;
      float_cases a; solve_opp_or_zeros.
  - float_cases a; try discriminate; float_cases a'; try discriminate;
      float_cases b; solve_opp_or_zeros.
  - float_cases a; try discriminate; float_cases a'; try discriminate;
      float_cases b; try discriminate; float_cases b'; try discriminate;
      solve_opp_or_zeros.
Qed.

Lemma opposite_or_zeros_mul_l c a a' :
  opposite_or_zeros a a' -> opposite_or_zeros (fmul c a) (fmul c a').
Proof.
  intros [-> | [Ha Ha']].
  - left. apply fmul_opp_r.
  - float_cases a; try discriminate; float_cases a'; try discriminate;
      float_cases c; solve_opp_or_zeros.
Qed.

Lemma opposite_or_zeros_square a a' :
  opposite_or_zeros a a' -> fmul a' a' = fmul a a.
Proof.
  intros [-> | [Ha Ha']].
  - rewrite fmul_opp_r, fmul_opp_l. apply SFopp_involutive.
  - float_cases a; try discriminate; float_cases a'; try discriminate; reflexivity.
Qed.

Lemma dot_neg_r u d : opposite_or_zeros (glm.dot u d) (glm.dot u (vec_neg d)).
Proof.
  unfold glm.dot, vec_neg. cbn [glm.x glm.y glm.z].
  repeat apply opposite_or_zeros_add; left; apply fmul_opp_r.
Qed.

Lemma dot_neg_neg d : glm.dot (vec_neg d) (vec_neg d) = glm.dot d d.
Proof.
  unfold glm.dot, vec_neg. cbn [glm.x glm.y glm.z].
  rewrite !fmul_opp_r, !fmul_opp_l, !SFopp_involutive. reflexivity.
Qed.

Lemma discriminant_neg o d obj :
  discriminant o (vec_neg d) obj = discriminant o d obj.
Proof.
  unfold discriminant. rewrite dot_neg_neg.
  rewrite (opposite_or_zeros_square
             (fmul f2 (glm.dot (glm.sub o (position obj)) d))
             (fmul f2 (glm.dot (glm.sub o (position obj)) (vec_neg d)))).
  - reflexivity.
  - apply opposite_or_zeros_mul_l, dot_neg_r.
Qed.

Lemma cross_neg_l d u :
  opposite_or_zeros (glm.x (glm.cross d u)) (glm.x (glm.cross (vec_neg d) u))
  /\ opposite_or_zeros (glm.y (glm.cross d u)) (glm.y (glm.cross (vec_neg d) u))
  /\ opposite_or_zeros (glm.z (glm.cross d u)) (glm.z (glm.cross (vec_neg d) u)).
Proof.
  unfold glm.cross, vec_neg. cbn [glm.x glm.y glm.z].
  repeat split; apply opposite_or_zeros_sub; left;
    first [ apply fmul_opp_l | apply fmul_opp_r ].
Qed.

Lemma length_neg d : glm.length (vec_neg d) = glm.length d.
Proof. unfold glm.length. rewrite dot_neg_neg. reflexivity. Qed.

Lemma DistanceFromRayToLineSegment_neg o d a b :
  DistanceFromRayToLineSegment o (vec_neg d) a b
  = DistanceFromRayToLineSegment o d a b.
Proof.
  unfold DistanceFromRayToLineSegment. rewrite length_neg.
  set (w := glm.sub _ o).
  destruct (cross_neg_l d w) as (Hx & Hy & Hz).
  unfold glm.length at 1 3. unfold glm.dot.
  rewrite (opposite_or_zeros_square _ _ Hx), (opposite_or_zeros_square _ _ Hy),
    (opposite_or_zeros_square _ _ Hz).
  reflexivity.
Qed.

Lemma RayIntersectsObject_neg o d obj :
  RayIntersectsObject o (vec_neg d) obj = RayIntersectsObject o d obj.
Proof. unfold RayIntersectsObject. rewrite discriminant_neg. reflexivity. Qed.

Lemma near_arrow_neg o d p axis : near_arrow o (vec_neg d) p axis = near_arrow o d p axis.
Proof. unfold near_arrow. rewrite DistanceFromRayToLineSegment_neg. reflexivity. Qed.

Lemma first_arrow_neg o d p : first_arrow o (vec_neg d) p = first_arrow o d p.
Proof. unfold first_arrow. rewrite !near_arrow_neg. reflexivity. Qed.

Lemma pick_loop_neg o d l i sel :
  pick_loop o (vec_neg d) l i sel = pick_loop o d l i sel.
Proof.
  revert i. induction l as [| obj l IH]; intros i; simpl.
  - reflexivity.
  - rewrite RayIntersectsObject_neg, IH. reflexivity.
Qed.

(** * The hit tests look along the whole line *)

(** X1: the sphere test does not depend on the sense of the ray: for every
    origin, direction and object the discriminant computed for [-direction]
    is the same float as for [direction], so an object behind the ray origin
    is reported exactly when it would be in front. *)
Theorem X1_RayIntersectsObject_reversed_ray :
  forall ray_origin ray_direction object,
    discriminant ray_origin (vec_neg ray_direction) object
    = discriminant ray_origin ray_direction object
    /\ RayIntersectsObject ray_origin (vec_neg ray_direction) object
       = RayIntersectsObject ray_origin ray_direction object.
Proof.
  intros o d obj. split; [apply discriminant_neg | apply RayIntersectsObject_neg].
Qed.

(** X2: the distance from the ray to a segment is the distance from the
    whole line: reversing the direction gives the same float, for every
    origin, direction and segment. *)
Theorem X2_DistanceFromRayToLineSegment_reversed_ray :
  forall ray_origin ray_direction line_start line_end,
    DistanceFromRayToLineSegment ray_origin (vec_neg ray_direction)
      line_start line_end
    = DistanceFromRayToLineSegment ray_origin ray_direction line_start line_end.
Proof. intros. apply DistanceFromRayToLineSegment_neg. Qed.

(** X3: a mouse button event with the ray reversed leaves the same objects,
    selection, axis and drag flag as with the ray itself (only the captured
    click position differs): arrows and objects behind the camera are
    clicked like those in front. *)
Theorem X3_press_reversed_ray :
  forall button action want ray_origin ray_direction s,
    selection_outcome
      (mouse_button_callback button action want ray_origin
         (vec_neg ray_direction) s)
    = selection_outcome
        (mouse_button_callback button action want ray_origin ray_direction s).
Proof.
  intros button action want ro rd s. unfold mouse_button_callback.
  destruct ((button =? GLFW_MOUSE_BUTTON_LEFT) && (action =? GLFW_PRESS));
    [| reflexivity].
  destruct want; [reflexivity |].
  cbn [selectedObject set_selectedAxis].
  destruct (0 <=? selectedObject s).
  - destruct (object_at (objects s) (selectedObject s)) as [obj |] eqn:Hobj.
    + destruct (gizmo_click_outcome ro (vec_neg rd) (set_selectedAxis (-1) s) obj Hobj)
        as (t1 & E1 & O1 & S1 & _ & _ & A1 & D1 & _).
      destruct (gizmo_click_outcome ro rd (set_selectedAxis (-1) s) obj Hobj)
        as (t2 & E2 & O2 & S2 & _ & _ & A2 & D2 & _).
      rewrite E1, E2. cbn [mbind option_bind].
      rewrite first_arrow_neg in A1, D1.
      rewrite S1, S2, D1, D2.
      destruct ((selectedObject (set_selectedAxis (-1) s) =? -1)
                || negb (if first_arrow ro rd (position obj) =? -1
                         then isDragging (set_selectedAxis (-1) s) else true));
        unfold selection_outcome, pick_object; simpl;
        rewrite ?O1, ?O2, ?S1, ?S2, ?A1, ?A2, ?D1, ?D2, ?pick_loop_neg;
        reflexivity.
    + rewrite !gizmo_click_none by exact Hobj. reflexivity.
  - simpl.
    destruct ((selectedObject s =? -1) || negb (isDragging s));
      unfold selection_outcome, pick_object; simpl; rewrite ?pick_loop_neg;
      reflexivity.
Qed.

(** * Rays parallel to a ring, segments of length zero *)

Lemma not_finite_mul t c : is_finite t = false -> is_finite (fmul t c) = false.
Proof. intros Ht. float_cases t; float_cases c; float_crush. Qed.

Lemma not_finite_add_r a b : is_finite b = false -> is_finite (fadd a b) = false.
Proof. intros Hb. float_cases a; float_cases b; float_crush. Qed.

Lemma not_finite_sub_l a b : is_finite a = false -> is_finite (fsub a b) = false.
Proof. intros Ha. float_cases a; float_cases b; float_crush. Qed.

Lemma not_finite_square a : is_finite a = false -> posinf_or_nan (fmul a a) = true.
Proof. intros Ha. float_cases a; float_crush. Qed.

Lemma posinf_or_nan_add a b :
  posinf_or_nan a = true -> posinf_or_nan b = true -> posinf_or_nan (fadd a b) = true.
Proof. intros Ha Hb. float_cases a; float_cases b; float_crush. Qed.

Lemma posinf_or_nan_sqrt a : posinf_or_nan a = true -> posinf_or_nan (fsqrt a) = true.
Proof. intros Ha. float_cases a; float_crush. Qed.

Lemma posinf_or_nan_sub a b : posinf_or_nan a = true -> posinf_or_nan (fsub a b) = true.
Proof. intros Ha. float_cases a; float_cases b; float_crush. Qed.

Lemma posinf_or_nan_not_below a :
  posinf_or_nan a = true -> fltb (fabs a) f0_1 = false.
Proof. intros Ha. float_cases a; try discriminate Ha; reflexivity. Qed.

(** When the plane parameter is not a finite number the ring test fails. *)
Lemma IsRayNearCircle_parameter_not_finite o d c n rad :
  is_finite (plane_parameter o d c n) = false -> IsRayNearCircle o d c n rad = false.
Proof.
  intros Ht. unfold IsRayNearCircle.
  set (t := plane_parameter o d c n) in *. clearbody t.
  destruct (fltb t f0); [reflexivity |].
  apply posinf_or_nan_not_below, posinf_or_nan_sub, posinf_or_nan_sqrt.
  unfold glm.dot, glm.sub, glm.add, glm.scale_l. cbn [glm.x glm.y glm.z].
  repeat apply posinf_or_nan_add;
    apply not_finite_square, not_finite_sub_l, not_finite_add_r, not_finite_mul, Ht.
Qed.

(** X4: a ray parallel to the plane of a ring never selects the ring.  The
    ring test divides by [dot(ray_direction, normal)] without a check; when
    that divisor is a zero (or NaN) the test answers false, whatever the
    origin, centre, normal and radius. *)
Theorem X4_IsRayNearCircle_parallel_ray :
  forall ray_origin ray_direction center normal radius,
    zero_or_nan (glm.dot ray_direction normal) = true ->
    is_finite (plane_parameter ray_origin ray_direction center normal) = false
    /\ IsRayNearCircle ray_origin ray_direction center normal radius = false.
Proof.
  intros o d c n rad Hz.
  assert (Ht : is_finite (plane_parameter o d c n) = false)
    by (apply div_zn_not_finite, Hz).
  split; [exact Ht | apply IsRayNearCircle_parameter_not_finite, Ht].
Qed.

Lemma X4_IsRayNearCircle_parallel_ray_witness :
  zero_or_nan (glm.dot unit_y unit_x) = true
  /\ IsRayNearCircle (Vec3 f0 (SFopp f5) f0) unit_y (Vec3 f0 f0 f0) unit_x f1 = false.
Proof.
  split; [reflexivity |].
  apply (X4_IsRayNearCircle_parallel_ray (Vec3 f0 (SFopp f5) f0) unit_y
           (Vec3 f0 f0 f0) unit_x f1 eq_refl).
Defined.

Lemma fmul_nan_r a : fmul a S754_nan = S754_nan.
Proof. float_cases a; reflexivity. Qed.

Lemma fmul_nan_l a : fmul S754_nan a = S754_nan.
Proof. reflexivity. Qed.

Lemma fdiv_nan_l a : fdiv S754_nan a = S754_nan.
Proof. reflexivity. Qed.

Lemma fsub_nan_r a : fsub a S754_nan = S754_nan.
Proof. float_cases a; reflexivity. Qed.

Lemma dot_nan_vec_r u : glm.dot u nan_vec = S754_nan.
Proof. unfold glm.dot, nan_vec. cbn [glm.x glm.y glm.z]. rewrite !fmul_nan_r. reflexivity. Qed.

(** X5: a segment of length zero cannot be approached.  When [line_start]
    and [line_end] are the same finite point, normalising the zero vector
    gives NaN and the distance is NaN for every ray, so no click radius
    accepts it. *)
Theorem X5_DistanceFromRayToLineSegment_point_segment :
  forall ray_origin ray_direction p click_radius,
    finite_vec p = true ->
    DistanceFromRayToLineSegment ray_origin ray_direction p p = S754_nan
    /\ fltb (DistanceFromRayToLineSegment ray_origin ray_direction p p)
            click_radius = false.
Proof.
  intros o d p rad Hp.
  assert (E : DistanceFromRayToLineSegment o d p p = S754_nan).
  { unfold DistanceFromRayToLineSegment.
    rewrite (finite_vec_sub_self p Hp).
    change (glm.normalize (Vec3 f0 f0 f0)) with nan_vec.
    change (glm.length (Vec3 f0 f0 f0)) with f0.
    rewrite !dot_nan_vec_r. rewrite fdiv_nan_l.
    change (glm.clamp S754_nan f0 f1) with S754_nan.
    unfold glm.scale_l, glm.scale_r, glm.add, glm.sub, glm.cross, glm.length,
      glm.dot, nan_vec. cbn [glm.x glm.y glm.z].
    repeat first [ rewrite fmul_nan_l | rewrite fmul_nan_r | rewrite fadd_nan_r
                 | rewrite fsub_nan_l | rewrite fsub_nan_r | rewrite fdiv_nan_l ].
    reflexivity. }
  rewrite E. split; reflexivity.
Qed.

Lemma X5_DistanceFromRayToLineSegment_point_segment_witness :
  finite_vec (Vec3 f1 f0 f0) = true
  /\ DistanceFromRayToLineSegment (Vec3 f1 f0 f5) towards_minus_z
       (Vec3 f1 f0 f0) (Vec3 f1 f0 f0) = S754_nan.
Proof.
  split; [reflexivity |].
  apply (X5_DistanceFromRayToLineSegment_point_segment (Vec3 f1 f0 f5)
           towards_minus_z (Vec3 f1 f0 f0) gizmoClickRadius eq_refl).
Defined.

(** * Mouse button events and the scene *)

(** X6: an arrow of the selected object takes precedence over picking.  When
    the ray is near an arrow of the selected object, a press outside the
    panels starts a drag along the first such axis (X before Y before Z),
    captures [ray_origin + ray_direction] as the anchor and changes nothing
    else: the selection stays, whatever objects the ray crosses and whether
    or not a drag was already in progress. *)
Theorem X6_press_on_arrow_starts_drag :
  forall ray_origin ray_direction s obj,
    object_at (objects s) (selectedObject s) = Some obj ->
    first_arrow ray_origin ray_direction (position obj) <> -1 ->
    mouse_button_callback GLFW_MOUSE_BUTTON_LEFT GLFW_PRESS false
      ray_origin ray_direction s
    = Some (set_initialClickPosition (glm.add ray_origin ray_direction)
              (set_isDragging true
                 (set_selectedAxis
                    (first_arrow ray_origin ray_direction (position obj)) s))).
Proof.
  intros ro rd s obj Hobj Hfa.
  pose proof (object_at_Some_nonneg _ _ _ Hobj) as Hnn.
  unfold mouse_button_callback. simpl.
  destruct (0 <=? selectedObject s) eqn:E; [| lia].
  unfold gizmo_click. cbn [objects selectedObject set_selectedAxis].
  rewrite Hobj. cbn [mbind option_bind].
  unfold first_arrow in *.
  destruct (near_arrow ro rd (position obj) unit_x);
    [| destruct (near_arrow ro rd (position obj) unit_y);
       [| destruct (near_arrow ro rd (position obj) unit_z); [| congruence]]];
    simpl; destruct (selectedObject s =? -1) eqn:E1; try lia; reflexivity.
Qed.

Lemma X6_press_on_arrow_starts_drag_witness :
  RayIntersectsObject (Vec3 f0_5 f0_5 f5) towards_minus_z unit_object = true
  /\ mouse_button_callback GLFW_MOUSE_BUTTON_LEFT GLFW_PRESS false
       (Vec3 f0_5 f0_5 f5) towards_minus_z (selected_scene TRANSLATE)
     = Some (set_initialClickPosition (Vec3 f0_5 f0_5 f4)
               (set_isDragging true (set_selectedAxis 0 (selected_scene TRANSLATE)))).
Proof.
  split; [vm_compute; reflexivity |].
  rewrite (X6_press_on_arrow_starts_drag (Vec3 f0_5 f0_5 f5) towards_minus_z
             (selected_scene TRANSLATE) unit_object eq_refl).
  - vm_compute. reflexivity.
  - vm_compute. discriminate.
Defined.

Lemma mouse_button_callback_scene button action want ro rd s s' :
  mouse_button_callback button action want ro rd s = Some s' ->
  objects s' = objects s
  /\ currentMode s' = currentMode s
  /\ movementSensitivity s' = movementSensitivity s.
Proof.
  unfold mouse_button_callback.
  destruct ((button =? GLFW_MOUSE_BUTTON_LEFT) && (action =? GLFW_PRESS)).
  - destruct want; [intros [= <-]; repeat split |].
    cbn [selectedObject set_selectedAxis].
    destruct (0 <=? selectedObject s).
    + destruct (object_at (objects s) (selectedObject s)) as [obj |] eqn:Hobj.
      * destruct (gizmo_click_outcome ro rd (set_selectedAxis (-1) s) obj Hobj)
          as (t & Et & Ot & _ & Mt & Vt & _).
        rewrite Et. cbn [mbind option_bind].
        destruct ((selectedObject t =? -1) || negb (isDragging t));
          intros [= <-]; simpl; rewrite ?Ot, ?Mt, ?Vt; repeat split.
      * rewrite gizmo_click_none by exact Hobj. discriminate.
    + cbn [mbind option_bind].
      destruct ((selectedObject (set_selectedAxis (-1) s) =? -1)
                || negb (isDragging (set_selectedAxis (-1) s)));
        intros [= <-]; repeat split.
  - destruct ((button =? GLFW_MOUSE_BUTTON_LEFT) && (action =? GLFW_RELEASE));
      intros [= <-]; repeat split.
Qed.

(** X7: no mouse button event edits the scene.  Whatever the button, the
    action, the capture flag and the ray, when the callback succeeds the
    object sequence, the transformation mode and the sensitivity are what
    they were. *)
Theorem X7_mouse_button_keeps_scene :
  forall button action want ray_origin ray_direction s s',
    mouse_button_callback button action want ray_origin ray_direction s = Some s' ->
    objects s' = objects s
    /\ currentMode s' = currentMode s
    /\ movementSensitivity s' = movementSensitivity s.
Proof. intros. eapply mouse_button_callback_scene. eassumption. Qed.

Lemma X7_mouse_button_keeps_scene_witness :
  exists s',
    mouse_button_callback GLFW_MOUSE_BUTTON_LEFT GLFW_PRESS false
      (Vec3 f0 f0_5 f5) towards_minus_z initial_state = Some s'
    /\ objects s' = objects initial_state.
Proof.
  eexists. split; [vm_compute; reflexivity |].
  apply (X7_mouse_button_keeps_scene GLFW_MOUSE_BUTTON_LEFT GLFW_PRESS false
           (Vec3 f0 f0_5 f5) towards_minus_z initial_state).
  vm_compute. reflexivity.
Defined.

(** * Releasing the button *)

Lemma main_drag_idle cosf sinf ro rd s :
  isDragging s = false -> main_drag cosf sinf ro rd s = Some s.
Proof. intros H. unfold main_drag. rewrite H. reflexivity. Qed.

Lemma run_frames_idle cosf sinf frames s :
  isDragging s = false -> Forall is_frame frames -> run cosf sinf s frames = Some s.
Proof.
  intros Hd H. induction H as [| ev frames Hev _ IH]; [reflexivity |].
  destruct ev; try contradiction. simpl.
  rewrite main_drag_idle by exact Hd. simpl. exact IH.
Qed.

(** X8: a release of the left button always ends the drag, with or without
    the cursor over a panel and in every mode: it clears [isDragging] and
    the axis and touches nothing else; releasing again changes nothing; and
    after it the frames of the render loop leave the whole state alone,
    whatever the cursor does, until the next press. *)
Theorem X8_release_ends_drag :
  forall cosf sinf want ray_origin ray_direction s,
    mouse_button_callback GLFW_MOUSE_BUTTON_LEFT GLFW_RELEASE want
      ray_origin ray_direction s = Some (released s)
    /\ isDragging (released s) = false
    /\ selectedAxis (released s) = -1
    /\ objects (released s) = objects s
    /\ selectedObject (released s) = selectedObject s
    /\ released (released s) = released s
    /\ (forall frames, Forall is_frame frames ->
        run cosf sinf (released s) frames = Some (released s)).
Proof.
  intros cosf sinf want ro rd s. repeat split.
  intros frames Hf. apply run_frames_idle; [reflexivity | exact Hf].
Qed.

(** * What every run keeps *)

(** X9: in every state reached from the initial one, by events in any
    order, [selectedObject] is -1 or an index of the object sequence and
    [selectedAxis] is -1, 0, 1 or 2; so the [objects[selectedObject]] of the
    render loop's gizmo dispatch is always inside the vector. *)
Theorem X9_selection_always_in_range :
  forall cosf sinf tr,
    Z.of_nat (length tr) < INT_MAX ->
    exists s,
      run cosf sinf initial_state tr = Some s
      /\ (selectedObject s = -1 \/ selection_present s)
      /\ -1 <= selectedAxis s <= 2
      /\ is_Some (main_gizmo_target s).
Proof.
  intros cosf sinf tr Hlen.
  destruct initial_state_ok as [Hg0 _].
  destruct (run_globals_ok cosf sinf tr initial_state Hg0)
    as (s & E & (Hax & Hsel & _) & _); [simpl; lia |].
  exists s. split; [exact E |]. split; [exact Hsel |]. split; [exact Hax |].
  unfold main_gizmo_target.
  destruct (0 <=? selectedObject s) eqn:E0; [| eexists; reflexivity].
  destruct Hsel as [Hsel | Hsel]; [lia |].
  destruct (selection_present_object s Hsel) as (obj & Hobj).
  rewrite Hobj. eexists. reflexivity.
Qed.

Lemma X9_selection_always_in_range_witness :
  exists s,
    run cos_poly sin_poly initial_state
      [Panel ButtonAddSphere; Panel (Selectable 1); press_far] = Some s
    /\ (selectedObject s = -1 \/ selection_present s)
    /\ is_Some (main_gizmo_target s).
Proof.
  destruct (X9_selection_always_in_range cos_poly sin_poly
              [Panel ButtonAddSphere; Panel (Selectable 1); press_far])
    as (s & E & Hsel & _ & Ht).
  { vm_compute. reflexivity. }
  exists s. split; [exact E |]. split; assumption.
Defined.

Lemma step_length cosf sinf s ev s' :
  step cosf sinf s ev = Some s' ->
  length (objects s') = ((if is_add ev then 1 else 0) + length (objects s))%nat.
Proof.
  destruct ev as [button action want ro rd | ro rd | w | e]; simpl.
  - intros H. apply mouse_button_callback_scene in H. destruct H as (-> & _). reflexivity.
  - unfold main_drag.
    destruct (isDragging s && (0 <=? selectedObject s) && (0 <=? selectedAxis s));
      [| intros [= <-]; reflexivity].
    destruct (axis_direction (selectedAxis s)); [| discriminate].
    destruct (object_at (objects s) (selectedObject s)); [| discriminate].
    intros [= <-]. simpl. apply length_insert.
  - intros [= <-]. destruct w as [| | | | | j]; simpl;
      rewrite ?length_app; simpl; try lia.
    destruct (j <? length (objects s))%nat; reflexivity.
  - intros [= <-]. apply RenderObjectSettings_same_drag.
Qed.

(** X10: objects are only ever appended.  After any run that succeeds, from
    any state, the number of objects is the number before plus the number of
    "Add Cube" and "Add Sphere" clicks of the run: nothing removes an object
    and nothing else creates one. *)
Theorem X10_object_count :
  forall cosf sinf tr s s',
    run cosf sinf s tr = Some s' ->
    length (objects s') = (length (objects s) + count_adds tr)%nat.
Proof.
  intros cosf sinf tr. induction tr as [| ev tr IH]; intros s s'.
  - intros [= <-]. simpl. lia.
  - simpl. destruct (step cosf sinf s ev) as [s1 |] eqn:E1; [| discriminate].
    simpl. intros E. rewrite (IH _ _ E), (step_length _ _ _ _ _ E1). lia.
Qed.

Lemma X10_object_count_witness :
  exists s',
    run cos_poly sin_poly initial_state
      [Panel ButtonAddCube; press_cube; Panel ButtonAddSphere] = Some s'
    /\ length (objects s') = 3%nat.
Proof.
  eexists. split; [vm_compute; reflexivity |].
  apply (X10_object_count cos_poly sin_poly
           [Panel ButtonAddCube; press_cube; Panel ButtonAddSphere] initial_state).
  vm_compute. reflexivity.
Defined.

Lemma apply_transformation_kind cosf sinf mv ax s obj :
  isCube (apply_transformation cosf sinf mv ax s obj) = isCube obj
  /\ color (apply_transformation cosf sinf mv ax s obj) = color obj
  /\ textureID (apply_transformation cosf sinf mv ax s obj) = textureID obj.
Proof. unfold apply_transformation. destruct (currentMode s); repeat split. Qed.

Lemma insert_keeps_kind (l : list Object) k new i o :
  (forall old, l !! k = Some old ->
     isCube new = isCube old /\ color new = color old) ->
  l !! i = Some o ->
  exists o', <[k := new]> l !! i = Some o'
             /\ isCube o' = isCube o /\ color o' = color o.
Proof.
  intros Hnew Hi. destruct (decide (k = i)) as [-> | Hne].
  - exists new. split.
    + apply list_lookup_insert_eq, (lookup_lt_Some _ _ _ Hi).
    + apply Hnew, Hi.
  - exists o. rewrite list_lookup_insert_ne by exact Hne. auto.
Qed.

Lemma step_keeps_kind cosf sinf s ev s' i o :
  step cosf sinf s ev = Some s' ->
  objects s !! i = Some o ->
  exists o', objects s' !! i = Some o'
             /\ isCube o' = isCube o /\ color o' = color o.
Proof.
  destruct ev as [button action want ro rd | ro rd | w | e]; simpl.
  - intros H Hi. apply mouse_button_callback_scene in H. destruct H as (-> & _).
    eauto.
  - unfold main_drag.
    destruct (isDragging s && (0 <=? selectedObject s) && (0 <=? selectedAxis s));
      [| intros [= <-]; eauto].
    destruct (axis_direction (selectedAxis s)) as [d |]; [| discriminate].
    destruct (object_at (objects s) (selectedObject s)) as [obj |] eqn:Hobj;
      [| discriminate].
    intros [= <-] Hi. simpl. apply insert_keeps_kind; [| exact Hi].
    intros old Hold. unfold object_at in Hobj.
    destruct (selectedObject s <? 0); [discriminate |].
    rewrite Hold in Hobj. injection Hobj as ->.
    split; apply apply_transformation_kind.
  - intros [= <-] Hi. destruct w as [| | | | | j]; simpl; eauto;
      try (exists o; rewrite lookup_app_l by (apply (lookup_lt_Some _ _ _ Hi)); auto).
    destruct (j <? length (objects s))%nat; eauto.
  - intros [= <-] Hi. unfold RenderObjectSettings.
    destruct ((selectedObject s <? 0)
              || (Z.of_nat (length (objects s)) <=? selectedObject s)); [eauto |].
    destruct (objects s !! Z.to_nat (selectedObject s)) as [obj |] eqn:Hobj; [| eauto].
    simpl. apply insert_keeps_kind; [| exact Hi].
    intros old Hold. rewrite Hold in Hobj. injection Hobj as ->.
    destruct e; split; reflexivity.
Qed.

(** X11: an object keeps its index, its kind and its colour for ever.  After
    any run that succeeds, from any state, the index of an object of the
    starting state still holds an object, of the same [isCube] and the same
    [color]: presses, drags, panel widgets and settings edits change only
    positions, scales and textures. *)
Theorem X11_objects_keep_index_and_kind :
  forall cosf sinf tr s s' i o,
    run cosf sinf s tr = Some s' ->
    objects s !! i = Some o ->
    exists o', objects s' !! i = Some o'
               /\ isCube o' = isCube o /\ color o' = color o.
Proof.
  intros cosf sinf tr. induction tr as [| ev tr IH]; intros s s' i o.
  - intros [= <-] Hi. eauto.
  - simpl. destruct (step cosf sinf s ev) as [s1 |] eqn:E1; [| discriminate].
    simpl. intros E Hi.
    destruct (step_keeps_kind _ _ _ _ _ _ _ E1 Hi) as (o1 & H1 & Hk1 & Hc1).
    destruct (IH _ _ _ _ E H1) as (o' & H' & Hk & Hc).
    exists o'. split; [exact H' |]. split; congruence.
Qed.

Lemma X11_objects_keep_index_and_kind_witness :
  exists s' o',
    run cos_poly sin_poly initial_state
      [press_cube; release_at f0 f0_5; press_x_arrow;
       Frame (Vec3 f1 f0_5 (lit 3 1)) towards_minus_z] = Some s'
    /\ objects s' !! 0%nat = Some o'
    /\ isCube o' = true
    /\ position o' = Vec3 f2 f0_5 f0.
Proof.
  destruct (run cos_poly sin_poly initial_state
              [press_cube; release_at f0 f0_5; press_x_arrow;
               Frame (Vec3 f1 f0_5 (lit 3 1)) towards_minus_z]) as [s' |] eqn:E;
    [| revert E; vm_compute; discriminate].
  destruct (X11_objects_keep_index_and_kind cos_poly sin_poly _ initial_state s'
              0%nat _ E eq_refl) as (o' & H' & Hk & _).
  exists s', o'. split; [reflexivity |]. split; [exact H' |]. split; [exact Hk |].
  revert E H'. vm_compute. intros [= <-] [= <-]. reflexivity.
Defined.

(** * The panels *)





(** * The highlighted arrow *)

Lemma arrow_color_plain s k :
  0 <= k <= 2 -> (isDragging s = false \/ k <> selectedAxis s) ->
  arrow_color s k = plain_color k.
Proof.
  intros Hk H. unfold arrow_color, RenderGizmo_colors, plain_color.
  destruct (k =? 0) eqn:E0; [| destruct (k =? 1) eqn:E1].
  - destruct H as [-> | H]; [rewrite andb_false_r; reflexivity |].
    destruct (selectedAxis s =? 0) eqn:E; [lia | reflexivity].
  - destruct H as [-> | H]; [rewrite andb_false_r; reflexivity |].
    destruct (selectedAxis s =? 1) eqn:E; [lia | reflexivity].
  - destruct H as [-> | H]; [rewrite andb_false_r; reflexivity |].
    destruct (selectedAxis s =? 2) eqn:E; [lia | reflexivity].
Qed.

Lemma arrow_color_light s :
  isDragging s = true -> 0 <= selectedAxis s <= 2 ->
  arrow_color s (selectedAxis s) = light_color (selectedAxis s).
Proof.
  intros Hd Hk. unfold arrow_color, RenderGizmo_colors, light_color. rewrite Hd.
  destruct (selectedAxis s =? 0) eqn:E0; [reflexivity |].
  destruct (selectedAxis s =? 1) eqn:E1; [reflexivity |].
  destruct (selectedAxis s =? 2) eqn:E2; [reflexivity | lia].
Qed.

(** X14: which arrows a frame draws, and which one is highlighted.  In every
    state reached from the initial one by a run in which the presses and
    releases of the left button alternate, the gizmo dispatch of the render
    loop reads inside the vector, and: in rotate mode, or with no object
    selected, no arrow is drawn ([RenderRotationGizmo] draws rings), so a
    rotate drag highlights nothing; during a drag in translate or scale mode
    the three arrows of [RenderGizmo] are drawn, the arrow of [selectedAxis]
    in its lightened colour and the other two in their plain colours; with
    no drag, the arrows drawn are all plain.  The lightened colour of an axis
    is not its plain colour. *)
Theorem X14_one_arrow_highlighted :
  forall cosf sinf tr,
    Z.of_nat (length tr) < INT_MAX ->
    alternates false tr = true ->
    exists s arrows,
      run cosf sinf initial_state tr = Some s
      /\ main_arrows s = Some arrows
      /\ (currentMode s = ROTATE \/ selectedObject s = -1 -> arrows = [])
      /\ (isDragging s = true -> currentMode s <> ROTATE ->
          0 <= selectedAxis s <= 2
          /\ arrows = [arrow_color s 0; arrow_color s 1; arrow_color s 2]
          /\ arrow_color s (selectedAxis s) = light_color (selectedAxis s)
          /\ (forall k, 0 <= k <= 2 -> k <> selectedAxis s ->
              arrow_color s k = plain_color k))
      /\ (isDragging s = false ->
          arrows = [] \/ arrows = [plain_color 0; plain_color 1; plain_color 2])
      /\ (forall k, light_color k <> plain_color k).
Proof.
  intros cosf sinf tr Hlen Halt.
  destruct initial_state_ok as [Hg0 Hd0].
  destruct (run_globals_ok cosf sinf tr initial_state Hg0)
    as (s & E & (Hax & Hsel & Hdsel) & Hdrag); [simpl; lia |].
  destruct (Hdrag false Hd0 Halt) as (held' & Hax' & _).
  assert (Harrows : forall obj,
             gizmo_arrows s (Some (currentMode s, obj))
             = match currentMode s with
               | ROTATE => []
               | _ => [arrow_color s 0; arrow_color s 1; arrow_color s 2]
               end).
  { intros obj. unfold gizmo_arrows, arrow_color.
    destruct (currentMode s), (RenderGizmo_colors s) as [[xc yc] zc]; reflexivity. }
  assert (Hplain : isDragging s = false ->
                   [arrow_color s 0; arrow_color s 1; arrow_color s 2]
                   = [plain_color 0; plain_color 1; plain_color 2]).
  { intros Hd. rewrite !arrow_color_plain by (lia || (left; exact Hd)). reflexivity. }
  assert (Hlight : forall k, light_color k <> plain_color k).
  { intros k. unfold light_color, plain_color.
    destruct (k =? 0); [| destruct (k =? 1)]; vm_compute; discriminate. }
  unfold main_arrows, main_gizmo_target.
  destruct Hsel as [Hnone | Hpresent].
  - (* nothing selected: no gizmo, and no drag *)
    exists s, []. rewrite Hnone. simpl.
    split; [exact E |]. split; [reflexivity |]. split; [reflexivity |].
    split; [| split; [left; reflexivity | exact Hlight]].
    intros Hd. specialize (Hdsel Hd). lia.
  - destruct (selection_present_object s Hpresent) as (obj & Hobj).
    pose proof (object_at_Some_nonneg _ _ _ Hobj) as Hnn.
    assert (E0 : (0 <=? selectedObject s) = true) by lia.
    exists s, (gizmo_arrows s (Some (currentMode s, obj))).
    split; [exact E |].
    split; [rewrite E0, Hobj; reflexivity |].
    rewrite Harrows.
    split; [| split; [| split; [| exact Hlight]]].
    + intros [Hm | Hs]; [rewrite Hm; reflexivity | lia].
    + intros Hd Hm. specialize (Hax' Hd).
      split; [lia |].
      split; [destruct (currentMode s); [reflexivity | congruence | reflexivity] |].
      split; [apply arrow_color_light; [exact Hd | lia] |].
      intros k Hk Hne. apply arrow_color_plain; [exact Hk | right; exact Hne].
    + intros Hd. destruct (currentMode s);
        [right; apply Hplain, Hd | left; reflexivity | right; apply Hplain, Hd].
Qed.

Lemma X14_one_arrow_highlighted_witness :
  (exists s,
      run cos_poly sin_poly initial_state
        [press_cube; release_at f0 f0_5; press_x_arrow] = Some s
      /\ isDragging s = true
      /\ main_arrows s = Some [light_color 0; plain_color 1; plain_color 2])
  /\ (exists s,
      run cos_poly sin_poly initial_state
        [Panel ButtonRotate; press_cube; release_at f0 f0_5; press_x_arrow] = Some s
      /\ isDragging s = true
      /\ main_arrows s = Some []).
Proof.
  split.
  - destruct (X14_one_arrow_highlighted cos_poly sin_poly
                [press_cube; release_at f0 f0_5; press_x_arrow])
      as (s & arrows & E & Harrows & _ & Hdrag & _).
    { vm_compute. reflexivity. }
    { vm_compute. reflexivity. }
    assert (Hs : s = drag_started)
      by (revert E; vm_compute; intros [= <-]; reflexivity).
    exists s. split; [exact E |]. subst s. split; [reflexivity |].
    rewrite Harrows.
    destruct (Hdrag eq_refl) as (_ & -> & _); [discriminate |].
    reflexivity.
  - destruct (X14_one_arrow_highlighted cos_poly sin_poly
                [Panel ButtonRotate; press_cube; release_at f0 f0_5; press_x_arrow])
      as (s & arrows & E & Harrows & Hrot & _).
    { vm_compute. reflexivity. }
    { vm_compute. reflexivity. }
    assert (Hs : s = set_currentMode ROTATE drag_started)
      by (revert E; vm_compute; intros [= <-]; reflexivity).
    exists s. split; [exact E |]. subst s. split; [reflexivity |].
    rewrite Harrows, Hrot; [reflexivity | left; reflexivity].
Defined.

(** * Drags that should not move the object *)

Lemma fadd_zero_same p m : is_zero m = true -> same_value (fadd p m) p.
Proof.
  intros Hm. float_cases m; try discriminate;
    float_cases p; first [ left; reflexivity | right; split; reflexivity ].
Qed.

Lemma add_zero_vec_same p m :
  zero_vec m = true -> same_vec (glm.add p m) p.
Proof.
  unfold zero_vec, same_vec, glm.add. cbn [glm.x glm.y glm.z]. intros H.
  apply andb_prop in H as [H Hz]. apply andb_prop in H as [Hx Hy].
  repeat split; apply fadd_zero_same; assumption.
Qed.

(** The movement of a frame whose ray point is the anchor. *)
Lemma drag_movement_at_anchor cur ax k s :
  axis_direction k = Some ax ->
  finite_vec cur = true -> is_finite (movementSensitivity s) = true ->
  initialClickPosition s = cur ->
  zero_vec (drag_movement cur ax s) = true.
Proof.
  intros Hax Hcur Hsens Hanchor. unfold drag_movement.
  rewrite Hanchor, (finite_vec_sub_self cur Hcur).
  assert (Hz : glm.scale_l (glm.dot (Vec3 f0 f0 f0) ax) ax = Vec3 f0 f0 f0)
    by (destruct (axis_direction_Some _ _ Hax) as [[_ ->] | [[_ ->] | [_ ->]]];
        reflexivity).
  rewrite Hz. unfold zero_vec, glm.scale_r. cbn [glm.x glm.y glm.z].
  rewrite !zero_mul_l by (reflexivity || assumption). reflexivity.
Qed.

(** X15: holding the button without moving the cursor does not move the
    object.  In translate mode, after a frame of an active drag a second
    frame with the same ray adds a zero vector: every coordinate of the
    object is the same float as after the first frame (a zero may change
    its sign), and nothing else changes.  The ray point and the sensitivity
    are finite numbers. *)
Theorem X15_still_cursor_no_drift :
  forall cosf sinf ray_origin ray_direction s obj ax,
    isDragging s = true ->
    currentMode s = TRANSLATE ->
    axis_direction (selectedAxis s) = Some ax ->
    object_at (objects s) (selectedObject s) = Some obj ->
    finite_vec (glm.add ray_origin ray_direction) = true ->
    is_finite (movementSensitivity s) = true ->
    exists s1 s2 o1 o2,
      main_drag cosf sinf ray_origin ray_direction s = Some s1
      /\ main_drag cosf sinf ray_origin ray_direction s1 = Some s2
      /\ object_at (objects s1) (selectedObject s1) = Some o1
      /\ object_at (objects s2) (selectedObject s2) = Some o2
      /\ same_vec (position o2) (position o1)
      /\ set_position (position o1) o2 = o1
      /\ initialClickPosition s2 = initialClickPosition s1
      /\ length (objects s2) = length (objects s1).
Proof.
  intros cosf sinf ro rd s obj ax Hd Hm Hax Hobj Hcur Hsens.
  set (cur := glm.add ro rd) in *.
  set (o1 := set_position (glm.add (position obj) (drag_movement cur ax s)) obj).
  set (s1 := set_initialClickPosition cur
               (set_objects (<[Z.to_nat (selectedObject s) := o1]> (objects s)) s)).
  assert (E1 : main_drag cosf sinf ro rd s = Some s1).
  { rewrite (main_drag_dragging cosf sinf ro rd s obj ax Hd Hax Hobj).
    unfold apply_transformation. rewrite Hm. reflexivity. }
  assert (Hobj1 : object_at (objects s1) (selectedObject s1) = Some o1)
    by (apply object_at_insert with (obj := obj); exact Hobj).
  set (o2 := set_position (glm.add (position o1) (drag_movement cur ax s1)) o1).
  assert (E2 : main_drag cosf sinf ro rd s1
               = Some (set_initialClickPosition cur
                         (set_objects (<[Z.to_nat (selectedObject s1) := o2]>
                                         (objects s1)) s1))).
  { rewrite (main_drag_dragging cosf sinf ro rd s1 o1 ax Hd Hax Hobj1).
    unfold apply_transformation. cbn [currentMode s1 set_initialClickPosition set_objects].
    rewrite Hm. reflexivity. }
  eexists s1, _, o1, o2.
  split; [exact E1 |]. split; [exact E2 |]. split; [exact Hobj1 |].
  split; [apply object_at_insert with (obj := o1); exact Hobj1 |].
  split.
  { apply add_zero_vec_same.
    apply (drag_movement_at_anchor cur ax (selectedAxis s)); auto. }
  split; [reflexivity |]. split; [reflexivity |].
  simpl. rewrite !length_insert. reflexivity.
Qed.

Lemma X15_still_cursor_no_drift_witness :
  exists s1 s2 o1 o2,
    main_drag cos_poly sin_poly (Vec3 f1 f0 f0) unit_x
      (dragging_scene TRANSLATE (Vec3 f0 f0 f0) unit_object) = Some s1
    /\ main_drag cos_poly sin_poly (Vec3 f1 f0 f0) unit_x s1 = Some s2
    /\ object_at (objects s1) (selectedObject s1) = Some o1
    /\ object_at (objects s2) (selectedObject s2) = Some o2
    /\ same_vec (position o2) (position o1).
Proof.
  destruct (X15_still_cursor_no_drift cos_poly sin_poly (Vec3 f1 f0 f0) unit_x
              (dragging_scene TRANSLATE (Vec3 f0 f0 f0) unit_object)
              unit_object unit_x eq_refl eq_refl eq_refl eq_refl eq_refl eq_refl)
    as (s1 & s2 & o1 & o2 & E1 & E2 & H1 & H2 & Hsame & _).
  exists s1, s2, o1, o2. repeat split; assumption || apply Hsame.
Defined.

(** X16: a translate drag is constrained to its axis.  In translate mode a
    frame of an active drag along one axis leaves the other two coordinates
    of the selected object the same floats (a zero may change its sign),
    whenever the movement scalar and the sensitivity are finite numbers. *)
Theorem X16_translate_only_along_axis :
  forall cosf sinf ray_origin ray_direction s obj ax,
    isDragging s = true ->
    currentMode s = TRANSLATE ->
    axis_direction (selectedAxis s) = Some ax ->
    object_at (objects s) (selectedObject s) = Some obj ->
    is_finite (glm.dot (glm.sub (glm.add ray_origin ray_direction)
                                (initialClickPosition s)) ax) = true ->
    is_finite (movementSensitivity s) = true ->
    exists s' obj',
      main_drag cosf sinf ray_origin ray_direction s = Some s'
      /\ object_at (objects s') (selectedObject s') = Some obj'
      /\ (selectedAxis s <> 0 ->
          same_value (glm.x (position obj')) (glm.x (position obj)))
      /\ (selectedAxis s <> 1 ->
          same_value (glm.y (position obj')) (glm.y (position obj)))
      /\ (selectedAxis s <> 2 ->
          same_value (glm.z (position obj')) (glm.z (position obj)))
      /\ scale obj' = scale obj.
Proof.
  intros cosf sinf ro rd s obj ax Hd Hm Hax Hobj Hdot Hsens.
  eexists. eexists.
  split; [apply (main_drag_dragging cosf sinf ro rd s obj ax Hd Hax Hobj) |].
  split; [apply object_at_insert with (obj := obj); exact Hobj |].
  unfold apply_transformation. rewrite Hm.
  unfold drag_movement, glm.add, glm.scale_r, glm.scale_l.
  cbn [position set_position scale glm.x glm.y glm.z].
  set (d := glm.dot _ ax) in *.
  assert (Hoff : is_zero (fmul (fmul d f0) (movementSensitivity s)) = true).
  { apply zero_mul_l; [| exact Hsens]. apply zero_mul_r; [exact Hdot | reflexivity]. }
  destruct (axis_direction_Some _ _ Hax) as [[Hk ->] | [[Hk ->] | [Hk ->]]];
    cbn [glm.x glm.y glm.z unit_x unit_y unit_z];
    repeat split; intros Hne; try lia; apply fadd_zero_same, Hoff.
Qed.

Lemma X16_translate_only_along_axis_witness :
  exists s' obj',
    main_drag cos_poly sin_poly (Vec3 f1 f0 f0) unit_x
      (dragging_scene TRANSLATE (Vec3 f0 f0 f0) unit_object) = Some s'
    /\ object_at (objects s') (selectedObject s') = Some obj'
    /\ same_value (glm.y (position obj')) f0_5.
Proof.
  destruct (X16_translate_only_along_axis cos_poly sin_poly (Vec3 f1 f0 f0) unit_x
              (dragging_scene TRANSLATE (Vec3 f0 f0 f0) unit_object)
              unit_object unit_x eq_refl eq_refl eq_refl eq_refl eq_refl eq_refl)
    as (s' & obj' & E & Hobj & _ & Hy & _).
  exists s', obj'. split; [exact E |]. split; [exact Hobj |].
  apply Hy. discriminate.
Defined.

(** * The camera look *)

(** X17: the camera does not jump when a look starts.  After any cursor
    event with the right button up, which sends nothing to the camera and
    re-arms [firstMouse], the first cursor event with the button down sends
    the offsets (0, 0), wherever the cursor is (its coordinates being finite
    as floats) and wherever it was when the previous look ended; the
    position is then remembered, so that the next event sends a tenth of
    the cursor's displacement. *)
Theorem X17_look_starts_without_jump :
  forall c x0 y0 x1 y1 x2 y2,
    is_finite (static_cast_float x1) = true ->
    is_finite (static_cast_float y1) = true ->
    let r0 := mouse_callback false x0 y0 c in
    let r1 := mouse_callback true x1 y1 (fst r0) in
    let r2 := mouse_callback true x2 y2 (fst r1) in
    snd r0 = None
    /\ snd r1 = Some (f0, f0)
    /\ fst r1 = mkLook false (static_cast_float x1) (static_cast_float y1)
    /\ snd r2
       = Some (fmul (fsub (static_cast_float x2) (static_cast_float x1)) f0_1,
               fmul (fsub (static_cast_float y1) (static_cast_float y2)) f0_1).
Proof.
  intros c x0 y0 x1 y1 x2 y2 Hx Hy. unfold mouse_callback.
  cbn [firstMouse lastX lastY fst snd].
  rewrite !fsub_self by assumption.
  repeat split.
Qed.

Lemma X17_look_starts_without_jump_witness :
  snd (mouse_callback true (S754_finite false 700 0) (S754_finite false 300 0)
         (fst (mouse_callback false (S754_finite false 5 0) (S754_finite false 5 0)
                 look_initial)))
  = Some (f0, f0).
Proof.
  destruct (X17_look_starts_without_jump look_initial
              (S754_finite false 5 0) (S754_finite false 5 0)
              (S754_finite false 700 0) (S754_finite false 300 0)
              (S754_finite false 710 0) (S754_finite false 300 0)
              eq_refl eq_refl) as (_ & H1 & _).
  exact H1.
Defined.

(** * The sphere mesh *)

Lemma length_flat_map_const {A B} (f : A -> list B) (l : list A) n :
  (forall a, length (f a) = n) -> length (flat_map f l) = (length l * n)%nat.
Proof.
  intros Hf. induction l as [| a l IH]; simpl; [reflexivity |].
  rewrite length_app, Hf, IH. reflexivity.
Qed.

Lemma sphere_vertices_length cosf sinf latB lonB :
  length (sphere_vertices cosf sinf latB lonB) = (S latB * (S lonB * 5))%nat.
Proof.
  unfold sphere_vertices.
  rewrite (length_flat_map_const _ _ (S lonB * 5)), length_seq; [reflexivity |].
  intros lat. rewrite (length_flat_map_const _ _ 5), length_seq; reflexivity.
Qed.

Lemma sphere_indices_length latB lonB :
  length (sphere_indices latB lonB) = (latB * (lonB * 6))%nat.
Proof.
  unfold sphere_indices.
  rewrite (length_flat_map_const _ _ (lonB * 6)), length_seq; [reflexivity |].
  intros lat. rewrite (length_flat_map_const _ _ 6), length_seq; reflexivity.
Qed.

(** Every index names one of the [(latB + 1) * (lonB + 1)] vertices. *)
Lemma sphere_indices_bound latB lonB :
  Forall (fun i => 0 <= i < Z.of_nat (S latB * S lonB))
         (sphere_indices latB lonB).
Proof.
  unfold sphere_indices. apply Forall_forall. intros i Hi.
  apply list_elem_of_In in Hi.
  apply in_flat_map in Hi as (lat & Hlat & Hi).
  apply in_flat_map in Hi as (lon & Hlon & Hi).
  apply in_seq in Hlat. apply in_seq in Hlon.
  unfold sphere_quad in Hi. simpl in Hi.
  assert (Hmax : Z.of_nat lat * (Z.of_nat lonB + 1) + Z.of_nat lon
                 + Z.of_nat lonB + 1 + 1 < Z.of_nat (S latB * S lonB)) by nia.
  assert (Hmin : 0 <= Z.of_nat lat * (Z.of_nat lonB + 1)) by nia.
  repeat (destruct Hi as [<- | Hi]; [lia |]). contradiction.
Qed.

(** X18: the sphere mesh indexes only vertices it has.  [SetupSphere]
    produces 961 vertices of five floats each and 5400 element indices, the
    count stored in [sphereVertexCount], and every index is below 961: the
    indexed draw of a sphere never reads outside the vertex buffer. *)
Theorem X18_SetupSphere_indices_in_range :
  forall cosf sinf,
    let '(vertices, indices, sphereVertexCount) := SetupSphere cosf sinf in
    Z.of_nat (length vertices) = 961 * 5
    /\ Z.of_nat (length indices) = 5400
    /\ sphereVertexCount = 5400
    /\ Forall (fun i => 0 <= i < Z.of_nat (length vertices) / 5) indices.
Proof.
  intros cosf sinf. unfold SetupSphere.
  rewrite sphere_vertices_length, sphere_indices_length.
  split; [reflexivity |]. split; [reflexivity |]. split; [reflexivity |].
  apply (sphere_indices_bound 30 30).
Qed.

(** * The grid *)

Lemma vertices_of_app l1 l2 :
  (exists k, length l1 = (3 * k)%nat) ->
  vertices_of (l1 ++ l2) = vertices_of l1 ++ vertices_of l2.
Proof.
  intros (k & Hk). revert l1 Hk. induction k as [| k IH]; intros l1 Hk.
  - destruct l1; [reflexivity | simpl in Hk; lia].
  - destruct l1 as [| a [| b [| c l1]]]; simpl in Hk; try lia.
    simpl. f_equal. apply IH. lia.
Qed.

(** The loop keeps whole vertices, all of them in the plane y = 0. *)
Lemma SetupGrid_loop_flat fuel :
  forall i size step acc vertices,
    (exists k, length acc = (3 * k)%nat) ->
    Forall (fun v => glm.y v = f0) (vertices_of acc) ->
    SetupGrid_loop fuel i size step acc = Some vertices ->
    (exists k, length vertices = (3 * k)%nat)
    /\ Forall (fun v => glm.y v = f0) (vertices_of vertices).
Proof.
  induction fuel as [| fuel IH]; intros i size step acc vertices Hlen Hflat;
    simpl; [discriminate |].
  destruct (fleb i size); [| intros [= <-]; split; assumption].
  apply IH.
  - destruct Hlen as (k & Hk). exists (k + 4)%nat.
    rewrite length_app, Hk. simpl. lia.
  - rewrite vertices_of_app by exact Hlen.
    apply Forall_app. split; [exact Hflat |].
    simpl. repeat constructor.
Qed.

(** X19: the grid lies in the plane y = 0 and its vertex count is exact.
    Whenever [SetupGrid] returns, for any size and step, its data is a whole
    number of vertices, [gridVertexCount] is that number, and every vertex
    has y equal to 0; with the program's size 10 and step 1 the loop runs 21
    times and the grid has 84 vertices. *)
Theorem X19_SetupGrid_flat :
  (forall fuel size step vertices count,
      SetupGrid fuel size step = Some (vertices, count) ->
      count = Z.of_nat (length (vertices_of vertices))
      /\ Z.of_nat (length vertices) = 3 * count
      /\ Forall (fun v => glm.y v = f0) (vertices_of vertices))
  /\ snd <$> SetupGrid 22 (lit 10 1) f1 = Some 84
  /\ SetupGrid 21 (lit 10 1) f1 = None.
Proof.
  split; [| split; vm_compute; reflexivity].
  intros fuel size step vertices count. unfold SetupGrid.
  destruct (SetupGrid_loop fuel (SFopp size) size step []) as [vs |] eqn:E;
    [| discriminate].
  simpl. intros [= <- <-].
  destruct (SetupGrid_loop_flat fuel (SFopp size) size step [] vs) as ((k & Hk) & Hflat);
    [exists 0%nat; reflexivity | constructor | exact E |].
  assert (Hvl : forall l n, length l = (3 * n)%nat -> length (vertices_of l) = n).
  { intros l n. revert l. induction n as [| n IHn]; intros l Hl.
    - destruct l; [reflexivity | simpl in Hl; lia].
    - destruct l as [| a [| b [| c l]]]; simpl in Hl; try lia.
      simpl. f_equal. apply IHn. lia. }
  rewrite (Hvl _ _ Hk), Hk.
  assert (Hdiv : Z.of_nat (3 * k) / 3 = Z.of_nat k).
  { rewrite Nat2Z.inj_mul. change (Z.of_nat 3) with 3.
    rewrite Z.mul_comm, Z.div_mul by lia. reflexivity. }
  rewrite Hdiv. split; [reflexivity |]. split; [lia | exact Hflat].
Qed.

Lemma X19_SetupGrid_flat_witness :
  exists vertices,
    SetupGrid 22 (lit 10 1) f1 = Some (vertices, 84)
    /\ Forall (fun v => glm.y v = f0) (vertices_of vertices).
Proof.
  destruct X19_SetupGrid_flat as (Hflat & _).
  destruct (SetupGrid 22 (lit 10 1) f1) as [[vertices count] |] eqn:E;
    [| revert E; vm_compute; discriminate].
  assert (Hc : count = 84) by (revert E; vm_compute; intros [= _ <-]; reflexivity).
  exists vertices. subst count. split; [reflexivity |].
  apply (Hflat 22%nat (lit 10 1) f1 vertices 84 E).
Defined.

Lemma fleb_add_zero i step size :
  is_zero step = true -> fleb i size = true -> fleb (fadd i step) size = true.
Proof.
  intros Hs H. float_cases step; try discriminate; float_cases i; exact H.
Qed.

Lemma SetupGrid_loop_zero_step fuel :
  forall i size step acc,
    is_zero step = true -> fleb i size = true ->
    SetupGrid_loop fuel i size step acc = None.
Proof.
  induction fuel as [| fuel IH]; intros i size step acc Hs Hi; simpl;
    [reflexivity |].
  rewrite Hi. apply IH; [exact Hs | apply fleb_add_zero; assumption].
Qed.

Lemma SetupGrid_loop_absorbed_step fuel :
  forall i size step acc,
    fadd i step = i -> fleb i size = true ->
    SetupGrid_loop fuel i size step acc = None.
Proof.
  induction fuel as [| fuel IH]; intros i size step acc Hs Hi; simpl;
    [reflexivity |].
  rewrite Hi, Hs. apply IH; assumption.
Qed.

(** X20: [SetupGrid] has no guard against a step that does not advance the
    loop.  When [-size <= size] (the size is a number that is not negative)
    and the step is a zero, or is so small that [-size + step] rounds back
    to [-size] (size 2^25 with step 1, say), the loop variable never moves
    and the loop does not end: no number of iterations completes it. *)
Theorem X20_SetupGrid_stalled_step_diverges :
  forall fuel size step,
    fleb (SFopp size) size = true ->
    is_zero step = true \/ fadd (SFopp size) step = SFopp size ->
    SetupGrid fuel size step = None.
Proof.
  intros fuel size step Hsize [Hs | Hs]; unfold SetupGrid.
  - rewrite SetupGrid_loop_zero_step by assumption. reflexivity.
  - rewrite SetupGrid_loop_absorbed_step by assumption. reflexivity.
Qed.

Lemma X20_SetupGrid_stalled_step_diverges_witness :
  SetupGrid 1000 (lit 10 1) f0 = None
  /\ SetupGrid 1000 (lit 33554432 1) f1 = None.
Proof.
  split.
  - apply (X20_SetupGrid_stalled_step_diverges 1000 (lit 10 1) f0);
      [reflexivity | left; reflexivity].
  - apply (X20_SetupGrid_stalled_step_diverges 1000 (lit 33554432 1) f1);
      [reflexivity | right; reflexivity].
Defined.

(** * More that every run keeps *)

Lemma step_sensitivity cosf sinf s ev s' :
  step cosf sinf s ev = Some s' -> movementSensitivity s' = movementSensitivity s.
Proof.
  destruct ev as [button action want ro rd | ro rd | w | e]; simpl.
  - intros H. apply mouse_button_callback_scene in H. apply H.
  - unfold main_drag.
    destruct (isDragging s && (0 <=? selectedObject s) && (0 <=? selectedAxis s));
      [| intros [= <-]; reflexivity].
    destruct (axis_direction (selectedAxis s)); [| discriminate].
    destruct (object_at (objects s) (selectedObject s)); [| discriminate].
    intros [= <-]. reflexivity.
  - intros [= <-]. destruct w as [| | | | | j]; simpl; try reflexivity.
    destruct (j <? length (objects s))%nat; reflexivity.
  - intros [= <-]. unfold RenderObjectSettings.
    destruct ((selectedObject s <? 0)
              || (Z.of_nat (length (objects s)) <=? selectedObject s));
      [reflexivity |].
    destruct (objects s !! Z.to_nat (selectedObject s)); reflexivity.
Qed.

(** X21: the drag sensitivity is a constant of the session.  No input
    operation writes [movementSensitivity]: after any run that succeeds it
    is what it was, so in every state reached from the initial one it is
    4.0. *)
Theorem X21_sensitivity_constant :
  forall cosf sinf tr s s',
    run cosf sinf s tr = Some s' ->
    movementSensitivity s' = movementSensitivity s
    /\ (s = initial_state -> movementSensitivity s' = f4).
Proof.
  intros cosf sinf tr.
  assert (H : forall s s', run cosf sinf s tr = Some s' ->
                           movementSensitivity s' = movementSensitivity s).
  { induction tr as [| ev tr IH]; intros s s'.
    - intros [= <-]. reflexivity.
    - simpl. destruct (step cosf sinf s ev) as [s1 |] eqn:E1; [| discriminate].
      simpl. intros E. rewrite (IH _ _ E). apply (step_sensitivity _ _ _ _ _ E1). }
  intros s s' E. split; [apply (H _ _ E) |].
  intros ->. apply (H _ _ E).
Qed.

Lemma X21_sensitivity_constant_witness :
  exists s',
    run (fun a => a) (fun a => a) initial_state
      [Panel ButtonAddSphere; press_cube; Panel ButtonScale] = Some s'
    /\ movementSensitivity s' = f4.
Proof.
  eexists. split; [vm_compute; reflexivity |].
  apply (X21_sensitivity_constant (fun a => a) (fun a => a)
           [Panel ButtonAddSphere; press_cube; Panel ButtonScale] initial_state);
    [vm_compute; reflexivity | reflexivity].
Defined.

Lemma apply_transformation_floor cosf sinf mv ax s obj :
  scale_above_floor obj ->
  scale_above_floor (apply_transformation cosf sinf mv ax s obj).
Proof.
  intros Hobj. unfold apply_transformation.
  destruct (currentMode s); [exact Hobj | exact Hobj |].
  unfold scale_above_floor, above_floor, glm.max, glm.splat.
  cbn [scale set_scale glm.x glm.y glm.z].
  split; [| split]; apply fmax_not_below; reflexivity.
Qed.

Lemma step_scale_floor cosf sinf s ev s' :
  Forall scale_above_floor (objects s) -> respects_floor ev ->
  step cosf sinf s ev = Some s' ->
  Forall scale_above_floor (objects s').
Proof.
  intros Hs Hev.
  destruct ev as [button action want ro rd | ro rd | w | e]; simpl.
  - intros H. apply mouse_button_callback_scene in H. destruct H as (-> & _).
    exact Hs.
  - unfold main_drag.
    destruct (isDragging s && (0 <=? selectedObject s) && (0 <=? selectedAxis s));
      [| intros [= <-]; exact Hs].
    destruct (axis_direction (selectedAxis s)) as [d |]; [| discriminate].
    destruct (object_at (objects s) (selectedObject s)) as [obj |] eqn:Hobj;
      [| discriminate].
    intros [= <-]. simpl. apply Forall_insert; [exact Hs |].
    apply apply_transformation_floor.
    unfold object_at in Hobj. destruct (selectedObject s <? 0); [discriminate |].
    apply (Forall_lookup_1 _ _ _ _ Hs Hobj).
  - intros [= <-]. destruct w as [| | | | | j]; simpl; try exact Hs;
      try (apply Forall_app; split; [exact Hs |];
           constructor; [vm_compute; repeat split | constructor]).
    destruct (j <? length (objects s))%nat; exact Hs.
  - intros [= <-]. unfold RenderObjectSettings.
    destruct ((selectedObject s <? 0)
              || (Z.of_nat (length (objects s)) <=? selectedObject s));
      [exact Hs |].
    destruct (objects s !! Z.to_nat (selectedObject s)) as [obj |] eqn:Hobj;
      [| exact Hs].
    simpl. apply Forall_insert; [exact Hs |].
    pose proof (Forall_lookup_1 _ _ _ _ Hs Hobj) as Ho.
    destruct e; [exact Ho | exact Hev | exact Ho].
Qed.

(** X22: no object is ever scaled below the floor.  If no scale component
    of any object compares below 0.1, as in the initial state, then after
    any run that succeeds this is still so, provided the scale edits of the
    settings window stay at or above 0.1: scale drags clamp, and nothing
    else writes a scale. *)
Theorem X22_scale_floor_kept :
  forall cosf sinf tr s s',
    Forall scale_above_floor (objects s) ->
    Forall respects_floor tr ->
    run cosf sinf s tr = Some s' ->
    Forall scale_above_floor (objects s').
Proof.
  intros cosf sinf tr. induction tr as [| ev tr IH]; intros s s' Hs Htr.
  - intros [= <-]. exact Hs.
  - simpl. destruct (step cosf sinf s ev) as [s1 |] eqn:E1; [| discriminate].
    simpl. intros E. inversion Htr as [| ev' tr' Hev Htr']; subst.
    apply (IH s1 s'); [| exact Htr' | exact E].
    apply (step_scale_floor cosf sinf s ev s1 Hs Hev E1).
Qed.

Lemma X22_scale_floor_kept_witness :
  exists s',
    run (fun a => a) (fun a => a) (dragging_scene SCALE scenarioD_anchor unit_object)
      [Frame scenarioD_origin towards_minus_z; Settings (DragScale (Vec3 f0_5 f2 f0_1))]
    = Some s'
    /\ Forall scale_above_floor (objects s').
Proof.
  eexists. split; [vm_compute; reflexivity |].
  apply (X22_scale_floor_kept (fun a => a) (fun a => a)
           [Frame scenarioD_origin towards_minus_z;
            Settings (DragScale (Vec3 f0_5 f2 f0_1))]
           (dragging_scene SCALE scenarioD_anchor unit_object)).
  - constructor; [vm_compute; repeat split | constructor].
  - constructor; [exact I |].
    constructor; [vm_compute; repeat split | constructor].
  - vm_compute. reflexivity.
Defined.
